(** * Bot-Dash: the log viewer's classifier, scheduler and bot controls

    A shallow embedding of the [LogViewer] class.  The repository holds two
    near-identical variants of the class: the one that triggers the bot over
    HTTP and shows toasts (called the dashboard variant below) and
    [script.js], which simulates the bot locally.  The text functions
    ([getLogClass], [extractTimestamp], [formatLogContent]), [loadLogs] up to
    its status strings, [stopBot] and the whole schedule controller are the
    same text in both; [startBot] differs and is modelled once per variant.

    Modelling choices, all stated where they are made:
    - a JavaScript string is a list of code units below 256 (Latin-1);
    - numbers are exact integers ([Z]), [NaN] is [None];
    - the viewer object, the controls it reads and writes, the timers of the
      page and the network calls issued are one record that every method
      threads; a method either returns or throws, keeping the writes made
      before the throw;
    - an [async] method is cut at its [await]: the part that runs when the
      method is called, and the part that runs when the awaited call settles;
    - clock readings, scroll offsets and the removal of a faded toast are
      left out. *)

From Stdlib Require Import Ascii String DecimalString DecimalNat ZArith Bool Arith Lia List.
Import ListNotations.

Set Warnings "-register-all".

(** ** Strings *)

Definition jsstring := list ascii.

Definition str (s : string) : jsstring := list_ascii_of_string s.

Definition code (c : ascii) : nat := nat_of_ascii c.

Definition dquote : ascii := ascii_of_nat 34.
Definition newline : ascii := ascii_of_nat 10.

(** [String.prototype.toLowerCase] on code units below 256: the letters A-Z
    and the Latin-1 capitals (0xC0-0xDE without the multiplication sign 0xD7)
    move up by 32, every other unit stays. *)
Definition toLowerChar (c : ascii) : ascii :=
  let n := code c in
  if ((65 <=? n) && (n <=? 90)) || ((192 <=? n) && (n <=? 222) && negb (n =? 215))
  then ascii_of_nat (n + 32)
  else c.

Definition toLowerCase (s : jsstring) : jsstring := map toLowerChar s.

(** [s.startsWith(needle)]. *)
Fixpoint startsWith (needle s : jsstring) : bool :=
  match needle, s with
  | [], _ => true
  | _ :: _, [] => false
  | a :: needle', b :: s' => Ascii.eqb a b && startsWith needle' s'
  end.

(** [s.includes(needle)]. *)
Fixpoint includes (s needle : jsstring) : bool :=
  startsWith needle s ||
  match s with
  | [] => false
  | _ :: s' => includes s' needle
  end.

(** White space as [\s] and [trim] see it, below 256: tab, line feed,
    vertical tab, form feed, carriage return, space, no-break space. *)
Definition isSpace (c : ascii) : bool :=
  let n := code c in
  ((9 <=? n) && (n <=? 13)) || (n =? 32) || (n =? 160).

Definition isDigit (c : ascii) : bool :=
  let n := code c in (48 <=? n) && (n <=? 57).

Fixpoint trimStart (s : jsstring) : jsstring :=
  match s with
  | [] => []
  | c :: s' => if isSpace c then trimStart s' else s
  end.

Definition trimEnd (s : jsstring) : jsstring := rev (trimStart (rev s)).

Definition trim (s : jsstring) : jsstring := trimEnd (trimStart s).

(** [s.replace(needle, '')] with a string needle: the first occurrence of
    [needle] is removed, a string without it is returned as it is. *)
Fixpoint replaceFirst (s needle : jsstring) : jsstring :=
  if startsWith needle s then skipn (length needle) s
  else match s with
       | [] => []
       | c :: s' => c :: replaceFirst s' needle
       end.

(** ** getLogClass *)

Definition getLogClass (line : jsstring) : jsstring :=
  let lowerLine := toLowerCase line in
  if includes lowerLine (str "error") || includes lowerLine (str "exception")
     || includes lowerLine (str "failed")
  then str "error"
  else if includes lowerLine (str "warning") || includes lowerLine (str "warn")
  then str "warning"
  else if includes lowerLine (str "success") || includes lowerLine (str "completed")
          || includes lowerLine (str "ok")
  then str "success"
  else if includes lowerLine (str "info") || includes lowerLine (str "debug")
  then str "info"
  else [].

(** ** Regular expressions of extractTimestamp

    Each of the four patterns is a concatenation of one-character atoms
    ([\d], [\s] or a literal), [\d{n}] being [n] copies of [\d], wrapped in
    one capture group; so group 1 is the whole match and a match at a given
    position is decided without backtracking. *)

Inductive atom : Type :=
| Digit
| Space
| Lit (c : ascii).

Definition regex := list atom.

Definition accepts (a : atom) (c : ascii) : bool :=
  match a with
  | Digit => isDigit c
  | Space => isSpace c
  | Lit l => Ascii.eqb l c
  end.

Definition d (n : nat) : regex := repeat Digit n.
Definition lit (s : string) : regex := map Lit (str s).

(** Does the pattern match at the start of [s]? *)
Fixpoint matchHere (p : regex) (s : jsstring) : bool :=
  match p, s with
  | [], _ => true
  | _ :: _, [] => false
  | a :: p', c :: s' => accepts a c && matchHere p' s'
  end.

(** [s.match(p)] for a pattern without the [g] flag, reduced to what the
    caller reads: [match[1]] of the leftmost match, or [None] for [null]. *)
Fixpoint exec (p : regex) (s : jsstring) : option jsstring :=
  if matchHere p s then Some (firstn (length p) s)
  else match s with
       | [] => None
       | _ :: s' => exec p s'
       end.

(* /(\d{4}-\d{2}-\d{2}\s\d{2}:\d{2}:\d{2})/ *)
Definition isoPattern : regex :=
  d 4 ++ lit "-" ++ d 2 ++ lit "-" ++ d 2 ++ [Space] ++ d 2 ++ lit ":" ++ d 2 ++ lit ":" ++ d 2.

(* /(\d{2}\/\d{2}\/\d{4}\s\d{2}:\d{2}:\d{2})/ *)
Definition usPattern : regex :=
  d 2 ++ lit "/" ++ d 2 ++ lit "/" ++ d 4 ++ [Space] ++ d 2 ++ lit ":" ++ d 2 ++ lit ":" ++ d 2.

(* /(\d{2}:\d{2}:\d{2})/ *)
Definition timePattern : regex :=
  d 2 ++ lit ":" ++ d 2 ++ lit ":" ++ d 2.

(* /(\[\d{4}-\d{2}-\d{2}\s\d{2}:\d{2}:\d{2}\])/ *)
Definition bracketPattern : regex :=
  lit "[" ++ d 4 ++ lit "-" ++ d 2 ++ lit "-" ++ d 2 ++ [Space] ++ d 2 ++ lit ":" ++ d 2
          ++ lit ":" ++ d 2 ++ lit "]".

Definition patterns : list regex :=
  [isoPattern; usPattern; timePattern; bracketPattern].

(** The [for (const pattern of patterns)] loop. *)
Fixpoint firstMatch (ps : list regex) (line : jsstring) : option jsstring :=
  match ps with
  | [] => None
  | p :: ps' =>
      match exec p line with
      | Some m => Some m
      | None => firstMatch ps' line
      end
  end.

Definition extractTimestamp (line : jsstring) : option jsstring :=
  firstMatch patterns line.

(** ** formatLogContent *)

(** [div.textContent = text; return div.innerHTML]: the serialisation of one
    text node, which escapes the ampersand, the no-break space and the two
    angle brackets. *)
Definition escapeChar (c : ascii) : jsstring :=
  if Ascii.eqb c "&"%char then str "&amp;"
  else if Nat.eqb (code c) 160 then str "&nbsp;"
  else if Ascii.eqb c "<"%char then str "&lt;"
  else if Ascii.eqb c ">"%char then str "&gt;"
  else [c].

Definition escapeHtml (text : jsstring) : jsstring := flat_map escapeChar text.

(** A JavaScript string is truthy when it is not empty. *)
Definition truthy (s : jsstring) : bool :=
  match s with [] => false | _ => true end.

(** The line with its timestamp taken out, before it is escaped. *)
Definition stripTimestamp (line : jsstring) : jsstring :=
  match extractTimestamp line with
  | Some timestamp =>
      if truthy timestamp then trim (replaceFirst line timestamp) else line
  | None => line
  end.

Definition formatLogContent (line : jsstring) : jsstring :=
  escapeHtml (stripTimestamp line).

(** ** parseInt

    [parseInt(s)] with no radix: leading white space is skipped, one sign is
    read, a [0x] or [0X] prefix selects radix 16, and the longest run of
    digits of the radix gives the value; no digit at all gives [NaN]
    ([None]).  The value is the exact integer: the rounding to a double that
    JavaScript applies beyond 2^53 is left out. *)

Definition digitValue (c : ascii) : option Z :=
  let n := code c in
  if (48 <=? n) && (n <=? 57) then Some (Z.of_nat (n - 48))
  else if (97 <=? n) && (n <=? 122) then Some (Z.of_nat (n - 87))
  else if (65 <=? n) && (n <=? 90) then Some (Z.of_nat (n - 55))
  else None.

Fixpoint readDigits (radix : Z) (s : jsstring) (acc : option Z) : option Z :=
  match s with
  | [] => acc
  | c :: s' =>
      match digitValue c with
      | Some v =>
          if (v <? radix)%Z
          then readDigits radix s'
                 (Some (radix * match acc with Some a => a | None => 0 end + v)%Z)
          else acc
      | None => acc
      end
  end.

Definition parseInt (s : jsstring) : option Z :=
  let s1 := trimStart s in
  let '(sign, s2) :=
    match s1 with
    | c :: t =>
        if Ascii.eqb c "-"%char then ((-1)%Z, t)
        else if Ascii.eqb c "+"%char then (1%Z, t)
        else (1%Z, s1)
    | [] => (1%Z, s1)
    end in
  let '(radix, s3) :=
    match s2 with
    | z :: x :: t =>
        if Ascii.eqb z "0"%char && (Ascii.eqb x "x"%char || Ascii.eqb x "X"%char)
        then (16%Z, t) else (10%Z, s2)
    | _ => (10%Z, s2)
    end in
  match readDigits radix s3 None with
  | Some n => Some (sign * n)%Z
  | None => None
  end.

(** [n || dflt] for a number: [NaN] and zero are falsy. *)
Definition orElse (n : option Z) (dflt : Z) : Z :=
  match n with
  | Some k => if (k =? 0)%Z then dflt else k
  | None => dflt
  end.

Definition showZ (z : Z) : jsstring := str (NilEmpty.string_of_int (Z.to_int z)).
Definition showNat (n : nat) : jsstring := str (NilEmpty.string_of_uint (Nat.to_uint n)).

(** ** JSON values, as [response.json()] resolves them *)

(** A number carries its rendering [String(n)]; it is falsy exactly when
    that rendering is [0]. *)
Inductive json : Type :=
| JNull
| JBool (b : bool)
| JNumber (rendering : jsstring)
| JString (s : jsstring)
| JArray (items : list json)
| JObject (fields : list (jsstring * json)).

Definition jsEqb (a b : jsstring) : bool :=
  (List.length a =? List.length b) && startsWith a b.

(** [JSON.parse] keeps the last of several members with one key. *)
Fixpoint lookup (key : jsstring) (fields : list (jsstring * json)) : option json :=
  match fields with
  | [] => None
  | (k, v) :: rest =>
      match lookup key rest with
      | Some v' => Some v'
      | None => if jsEqb k key then Some v else None
      end
  end.

Definition jsonTruthy (j : json) : bool :=
  match j with
  | JNull => false
  | JBool b => b
  | JNumber r => negb (jsEqb r (str "0"))
  | JString s => truthy s
  | JArray _ | JObject _ => true
  end.

(** [String(j)], the conversion that [textContent] and [new Error] apply to
    what they are given.  It calls the value's [toString]: an array joins
    the conversions of its items with commas, [null] items being empty; an
    object is [[object Object]], unless it has a member named [toString] of
    its own, which hides the inherited method and is not a function: the
    conversion then throws a TypeError ([None]). *)
Fixpoint toStr (j : json) : option jsstring :=
  match j with
  | JNull => Some (str "null")
  | JBool true => Some (str "true")
  | JBool false => Some (str "false")
  | JNumber r => Some r
  | JString s => Some s
  | JArray items =>
      (fix join (l : list json) : option jsstring :=
         match l with
         | [] => Some []
         | x :: rest =>
             match match x with JNull => Some [] | _ => toStr x end with
             | None => None
             | Some first =>
                 match rest with
                 | [] => Some first
                 | _ => match join rest with
                        | None => None
                        | Some others => Some (first ++ str "," ++ others)
                        end
                 end
             end
         end) items
  | JObject fields =>
      match lookup (str "toString") fields with
      | Some _ => None
      | None => Some (str "[object Object]")
      end
  end.

(** ** The viewer, its page and its browser *)

Definition handle := nat.

(** The two arrow functions handed to [setInterval]. *)
Inductive callback : Type :=
| RefreshTick     (* () => { this.loadLogs(); } *)
| ScheduleTick.   (* () => { if (!this.isBotRunning) this.startBot(); this.addLogEntry(...) } *)

Record timer : Type := Timer {
  timerId : handle;
  timerCallback : callback;
  timerDelay : Z }.

(** The children of [logContent].  The clock readings written next to an
    entry and the scroll offsets are not modelled. *)
Inductive node : Type :=
| Rendered (logClass : jsstring) (timestamp : option jsstring) (content : jsstring)
           (dataLine : nat)                      (* div.log-line of displayLogs *)
| Added (type : jsstring) (message : jsstring)   (* div.log-line of addLogEntry *)
| Placeholder (text : jsstring).                 (* div.loading *)

(** The [disabled] property of the five controls. *)
Record controls : Type := Controls {
  startBotBtn_disabled : bool;
  stopBotBtn_disabled : bool;
  scheduleEnabled_disabled : bool;
  scheduleInterval_disabled : bool;
  scheduleUnit_disabled : bool }.

Record inputs : Type := Inputs {
  scheduleEnabled_checked : bool;
  scheduleInterval_value : jsstring;
  scheduleUnit_value : jsstring;
  autoRefreshCheckbox_checked : bool }.

Record display : Type := Display {
  logContent : list node;
  totalLines : nat;
  status : jsstring * jsstring;          (* textContent and the type in className *)
  errorMessage_text : jsstring;
  errorMessage_shown : bool;              (* style.display: flex or none *)
  toasts : list (jsstring * jsstring);    (* message and type, newest first *)
  console : list (jsstring * jsstring) }. (* console.error label and message *)

(** Interval timers alive, the next identifier [setInterval] hands out, the
    URLs fetched (newest first) and the fetches not settled yet. *)
Record browser : Type := Browser {
  timers : list timer;
  nextHandle : handle;
  requests : list jsstring;
  pendingLogs : nat;
  pendingBot : nat }.

(** [scheduleBtn] is read by [stopBot] (and by [startBot] of script.js), but
    no line of the constructor defines it. *)
Record viewer : Type := Viewer {
  ctl : controls;
  inp : inputs;
  out : display;
  env : browser;
  autoRefreshInterval : option handle;
  isLoading : bool;
  isBotRunning : bool;
  scheduledTask : option handle;
  scheduleBtn : option bool }.

Inductive variant : Type :=
| Dashboard   (* startBot fetches /process-pdfs; toasts *)
| Script.     (* script.js: startBot simulated locally *)

Inductive error : Type :=
| TypeError (message : jsstring)
| Error (message : jsstring).

Definition messageOf (e : error) : jsstring :=
  match e with TypeError m | Error m => m end.

(** A method returns or throws; the writes made before a throw stay. *)
Inductive outcome : Type :=
| Done (v : viewer)
| Thrown (e : error) (v : viewer).

Definition stateOf (o : outcome) : viewer :=
  match o with Done v | Thrown _ v => v end.

Definition method := viewer -> outcome.

Definition andThen (m1 m2 : method) : method :=
  fun v => match m1 v with
           | Done v' => m2 v'
           | Thrown e v' => Thrown e v'
           end.

Definition act (f : viewer -> viewer) : method := fun v => Done (f v).

Definition skip : method := Done.

Definition ifElse (c : viewer -> bool) (m1 m2 : method) : method :=
  fun v => if c v then m1 v else m2 v.

Definition when (c : viewer -> bool) (m : method) : method :=
  ifElse c m skip.

Definition unless (c : viewer -> bool) (m : method) : method :=
  ifElse c skip m.

Declare Scope method_scope.
Delimit Scope method_scope with method.
Bind Scope method_scope with method.
Notation "m1 ;; m2" := (andThen m1 m2) (at level 61, right associativity) : method_scope.
Local Open Scope method_scope.

(** *** Property writes *)

Definition with_ctl (f : controls -> controls) (v : viewer) : viewer :=
  let 'Viewer c i o b a l r s q := v in Viewer (f c) i o b a l r s q.
Definition with_inp (f : inputs -> inputs) (v : viewer) : viewer :=
  let 'Viewer c i o b a l r s q := v in Viewer c (f i) o b a l r s q.
Definition with_out (f : display -> display) (v : viewer) : viewer :=
  let 'Viewer c i o b a l r s q := v in Viewer c i (f o) b a l r s q.
Definition with_env (f : browser -> browser) (v : viewer) : viewer :=
  let 'Viewer c i o b a l r s q := v in Viewer c i o (f b) a l r s q.
Definition set_autoRefreshInterval (h : option handle) (v : viewer) : viewer :=
  let 'Viewer c i o b _ l r s q := v in Viewer c i o b h l r s q.
Definition set_isLoading (x : bool) (v : viewer) : viewer :=
  let 'Viewer c i o b a _ r s q := v in Viewer c i o b a x r s q.
Definition set_isBotRunning (x : bool) (v : viewer) : viewer :=
  let 'Viewer c i o b a l _ s q := v in Viewer c i o b a l x s q.
Definition set_scheduledTask (h : option handle) (v : viewer) : viewer :=
  let 'Viewer c i o b a l r _ q := v in Viewer c i o b a l r h q.

Definition set_startBotBtn_disabled (x : bool) : viewer -> viewer :=
  with_ctl (fun c => let 'Controls _ b c0 d0 e := c in Controls x b c0 d0 e).
Definition set_stopBotBtn_disabled (x : bool) : viewer -> viewer :=
  with_ctl (fun c => let 'Controls a _ c0 d0 e := c in Controls a x c0 d0 e).
Definition set_scheduleEnabled_disabled (x : bool) : viewer -> viewer :=
  with_ctl (fun c => let 'Controls a b _ d0 e := c in Controls a b x d0 e).
Definition set_scheduleInterval_disabled (x : bool) : viewer -> viewer :=
  with_ctl (fun c => let 'Controls a b c0 _ e := c in Controls a b c0 x e).
Definition set_scheduleUnit_disabled (x : bool) : viewer -> viewer :=
  with_ctl (fun c => let 'Controls a b c0 d0 _ := c in Controls a b c0 d0 x).

Definition set_scheduleEnabled_checked (x : bool) : viewer -> viewer :=
  with_inp (fun i => let 'Inputs _ b c u := i in Inputs x b c u).
Definition set_scheduleInterval_value (x : jsstring) : viewer -> viewer :=
  with_inp (fun i => let 'Inputs a _ c u := i in Inputs a x c u).
Definition set_scheduleUnit_value (x : jsstring) : viewer -> viewer :=
  with_inp (fun i => let 'Inputs a b _ u := i in Inputs a b x u).
Definition set_autoRefreshCheckbox_checked (x : bool) : viewer -> viewer :=
  with_inp (fun i => let 'Inputs a b c _ := i in Inputs a b c x).

Definition set_logContent (x : list node) : viewer -> viewer :=
  with_out (fun o => let 'Display _ n s t h ts cs := o in Display x n s t h ts cs).
Definition set_totalLines (x : nat) : viewer -> viewer :=
  with_out (fun o => let 'Display l _ s t h ts cs := o in Display l x s t h ts cs).
Definition set_status (x : jsstring * jsstring) : viewer -> viewer :=
  with_out (fun o => let 'Display l n _ t h ts cs := o in Display l n x t h ts cs).
Definition set_errorMessage_text (x : jsstring) : viewer -> viewer :=
  with_out (fun o => let 'Display l n s _ h ts cs := o in Display l n s x h ts cs).
Definition set_errorMessage_shown (x : bool) : viewer -> viewer :=
  with_out (fun o => let 'Display l n s t _ ts cs := o in Display l n s t x ts cs).
Definition push_toast (x : jsstring * jsstring) : viewer -> viewer :=
  with_out (fun o => let 'Display l n s t h ts cs := o in Display l n s t h (x :: ts) cs).
Definition push_console (x : jsstring * jsstring) : viewer -> viewer :=
  with_out (fun o => let 'Display l n s t h ts cs := o in Display l n s t h ts (x :: cs)).

Definition set_timers (x : list timer) : viewer -> viewer :=
  with_env (fun b => let 'Browser _ n r pl pb := b in Browser x n r pl pb).
Definition set_nextHandle (x : handle) : viewer -> viewer :=
  with_env (fun b => let 'Browser t _ r pl pb := b in Browser t x r pl pb).
Definition push_request (x : jsstring) : viewer -> viewer :=
  with_env (fun b => let 'Browser t n r pl pb := b in Browser t n (x :: r) pl pb).
Definition set_pendingLogs (x : nat) : viewer -> viewer :=
  with_env (fun b => let 'Browser t n r _ pb := b in Browser t n r x pb).
Definition set_pendingBot (x : nat) : viewer -> viewer :=
  with_env (fun b => let 'Browser t n r pl _ := b in Browser t n r pl x).

(** *** The browser's part *)

(** [setInterval(cb, delay)]: the timer is registered under a fresh
    identifier, which is returned. *)
Definition setInterval (cb : callback) (delay : Z) (v : viewer) : handle * viewer :=
  let h := nextHandle (env v) in
  (h, set_nextHandle (S h) (set_timers (Timer h cb delay :: timers (env v)) v)).

(** [setTimeout(cb, delay)] draws its identifier from the same counter.
    The only timeouts of the page fade and remove a toast, which the record
    does not follow; the identifier they take is. *)
Definition setTimeout (v : viewer) : viewer :=
  set_nextHandle (S (nextHandle (env v))) v.

Definition clearInterval (h : handle) (v : viewer) : viewer :=
  set_timers (filter (fun t => negb (timerId t =? h)) (timers (env v))) v.

(** A timer identifier is a number: truthy when it is not zero. *)
Definition handleTruthy (h : option handle) : bool :=
  match h with
  | Some n => negb (n =? 0)
  | None => false
  end.

(** [fetch(url)]: the call is issued; its settlement is a later event. *)
Definition logsUrl (w : variant) : jsstring :=
  match w with
  | Dashboard => str "http://localhost:5000/logs.txt"
  | Script => str "logs.txt"
  end.

Definition processUrl : jsstring := str "http://localhost:5000/process-pdfs".

Definition fetchLogs (w : variant) (v : viewer) : viewer :=
  set_pendingLogs (S (pendingLogs (env v))) (push_request (logsUrl w) v).

Definition fetchProcess (v : viewer) : viewer :=
  set_pendingBot (S (pendingBot (env v))) (push_request processUrl v).

(** How many of the URLs fetched so far are [url]. *)
Definition fetched (url : jsstring) (v : viewer) : nat :=
  List.length (filter (jsEqb url) (requests (env v))).

(** *** Small display methods *)

Definition setStatus (text type : string) : method :=
  act (set_status (str text, str type)).

Definition showError (message : jsstring) : method :=
  act (fun v => set_errorMessage_shown true (set_errorMessage_text message v)).

Definition hideError : method := act (set_errorMessage_shown false).

Definition isLogLine (n : node) : bool :=
  match n with Placeholder _ => false | _ => true end.

(** The new entry goes on top; the counter is the number of [.log-line]
    elements afterwards.  The node keeps the message as text: the code
    writes it with [innerHTML], so the node stands for one element exactly
    when the message holds no markup. *)
Definition addLogEntry (message : jsstring) (type : string) : method :=
  act (fun v =>
         let nodes := Added (str type) message :: logContent (out v) in
         set_totalLines (List.length (filter isLogLine nodes)) (set_logContent nodes v)).

Definition showToast (message : jsstring) (type : string) : method :=
  act (push_toast (message, str type)) ;;
  act setTimeout.

Definition clearLogs : method :=
  act (set_logContent
         [Placeholder (str "Logs cleared. Click " ++ [dquote] ++ str "Refresh Logs"
                         ++ [dquote] ++ str " to reload.")]) ;;
  act (set_totalLines 0) ;;
  setStatus "Cleared" "info" ;;
  hideError.

(** *** Exceptions *)

Definition throw (e : error) : method := fun v => Thrown e v.

(** [try { body } catch (error) { handler } finally { cleanup }]: the cleanup
    runs on every path, and an exception of the handler is thrown again after
    it. *)
Definition tryCatchFinally (body : method) (handler : error -> method)
           (cleanup : method) : method :=
  fun v =>
    match body v with
    | Done v1 => cleanup v1
    | Thrown e v1 =>
        match handler e v1 with
        | Done v2 => cleanup v2
        | Thrown e' v2 => (cleanup ;; throw e') v2
        end
    end.

(** [this.scheduleBtn.disabled = x]: writing a property of [undefined]
    throws. *)
Definition set_scheduleBtn_disabled (x : bool) : method :=
  fun v =>
    match scheduleBtn v with
    | Some _ =>
        Done (let 'Viewer c i o b a l r s _ := v in Viewer c i o b a l r s (Some x))
    | None =>
        Thrown (TypeError (str "Cannot set properties of undefined (setting 'disabled')")) v
    end.

(** ** Rendering *)

(** [s.split(sep)] for a one-character separator. *)
Fixpoint split (sep : ascii) (s : jsstring) : list jsstring :=
  match s with
  | [] => [[]]
  | c :: s' =>
      if Ascii.eqb c sep then [] :: split sep s'
      else match split sep s' with
           | cur :: rest => (c :: cur) :: rest
           | [] => [[c]]
           end
  end.

Definition nonBlank (line : jsstring) : bool := truthy (trim line).

Fixpoint renderFrom (index : nat) (lines : list jsstring) : list node :=
  match lines with
  | [] => []
  | line :: rest =>
      let logClass := getLogClass line in
      let timestamp := extractTimestamp line in
      let content := formatLogContent line in
      Rendered logClass
               (match timestamp with
                | Some t => if truthy t then Some t else None
                | None => None
                end)
               content (index + 1)
        :: renderFrom (S index) rest
  end.

Definition displayLogs (logText : jsstring) : method :=
  fun v =>
    if negb (truthy (trim logText))
    then Done (set_logContent
                 [Placeholder (str "No logs found or logs.txt is empty")] v)
    else
      let lines := rev (filter nonBlank (split newline logText)) in
      Done (set_logContent (renderFrom 0 lines) v).

Definition updateStats (w : variant) (logText : jsstring) : method :=
  act (set_totalLines (List.length (filter nonBlank (split newline logText)))) ;;
  ifElse isBotRunning
    match w with
    | Dashboard => setStatus "Running" "info"
    | Script => setStatus "Bot Running" "success"
    end
    (ifElse (fun v => handleTruthy (scheduledTask v))
       (setStatus "Scheduled" "info")
       match w with
       | Dashboard => setStatus "Connected" "success"
       | Script => setStatus "Bot Stopped" "error"
       end).

(** ** loadLogs *)

Definition responseOk (status : nat) : bool := (200 <=? status) && (status <=? 299).

Inductive textOutcome : Type :=
| TextFailed (e : error)          (* response.text() rejects *)
| Text (logText : jsstring).

Inductive logsOutcome : Type :=
| LogsFetchFailed (e : error)     (* fetch rejects *)
| LogsResponse (status : nat) (statusText : jsstring) (body : textOutcome).

(** The part of [loadLogs] that runs at the call: up to [await fetch(...)]. *)
Definition loadLogs (w : variant) : method :=
  fun v =>
    if isLoading v then Done v
    else (act (set_isLoading true) ;;
          match w with
          | Dashboard => skip
          | Script => setStatus "Loading..." "loading"
          end ;;
          hideError ;;
          act (fetchLogs w)) v.

(** The rest of the [try] block once the fetch has settled.  Nothing of the
    viewer is read or written between the two awaits, so they settle as one
    event. *)
Definition loadLogsBody (w : variant) (o : logsOutcome) : method :=
  match o with
  | LogsFetchFailed e => throw e
  | LogsResponse status statusText body =>
      if negb (responseOk status)
      then throw (Error (str "Failed to load logs: " ++ showNat status ++ str " "
                             ++ statusText))
      else match body with
           | TextFailed e => throw e
           | Text logText =>
               displayLogs logText ;;
               updateStats w logText ;;
               match w with
               | Dashboard => skip
               | Script => setStatus "Connected" "success"
               end
           end
  end.

Definition loadLogsCatch (w : variant) (e : error) : method :=
  act (push_console (str "Error loading logs:", messageOf e)) ;;
  showError (str "Error loading logs: " ++ messageOf e) ;;
  match w with
  | Dashboard => skip
  | Script => setStatus "Error" "error"
  end.

Definition loadLogsSettled (w : variant) (o : logsOutcome) : method :=
  tryCatchFinally (loadLogsBody w o) (loadLogsCatch w) (act (set_isLoading false)).

(** ** Auto-refresh *)

Definition stopAutoRefresh : method :=
  when (fun v => handleTruthy (autoRefreshInterval v))
    (fun v =>
       match autoRefreshInterval v with
       | Some h => Done (set_autoRefreshInterval None (clearInterval h v))
       | None => Done v
       end).

Definition startAutoRefresh (w : variant) : method :=
  stopAutoRefresh ;;
  (fun v => let '(h, v') := setInterval RefreshTick 5000 v in
            Done (set_autoRefreshInterval (Some h) v')) ;;
  loadLogs w.

(** ** Bot controls *)

(** [startBot] at the call.  In the dashboard variant the method is [async]
    and runs up to [await fetch(...)]; whatever it throws would reject its
    promise, never the caller.  In script.js it is an ordinary method. *)
Definition startBot (w : variant) : method :=
  unless isBotRunning
    (act (set_isBotRunning true) ;;
     act (set_startBotBtn_disabled true) ;;
     act (set_stopBotBtn_disabled false) ;;
     act (set_scheduleEnabled_disabled true) ;;
     act (set_scheduleInterval_disabled true) ;;
     act (set_scheduleUnit_disabled true) ;;
     match w with
     | Dashboard =>
         setStatus "Running" "info" ;;
         act fetchProcess
     | Script =>
         set_scheduleBtn_disabled true ;;
         addLogEntry (str "Bot started successfully") "success" ;;
         setStatus "Bot Running" "success" ;;
         unless (fun v => handleTruthy (autoRefreshInterval v))
           (act (set_autoRefreshCheckbox_checked true) ;;
            startAutoRefresh w)
     end).

Inductive jsonOutcome : Type :=
| JsonFailed (e : error)          (* response.json() rejects *)
| Json (result : json).

Inductive botOutcome : Type :=
| BotFetchFailed (e : error)      (* fetch rejects *)
| BotResponse (status : nat) (body : jsonOutcome).

(** [result.key]: reading a property of [null] throws; an object gives the
    member or [undefined]; the other values have no such property. *)
Definition readProperty (result : json) (key : string) : error + option json :=
  match result with
  | JNull =>
      inl (TypeError (str "Cannot read properties of null (reading '" ++ str key
                          ++ str "')"))
  | JObject fields => inr (lookup (str key) fields)
  | _ => inr None
  end.

(** [x || dflt], then the conversion to a string that [textContent] and
    [new Error] apply, which throws when the value has none. *)
Definition orDefault (x : option json) (dflt : string) : error + jsstring :=
  match x with
  | Some j =>
      if jsonTruthy j
      then match toStr j with
           | Some s => inr s
           | None => inl (TypeError (str "Cannot convert object to primitive value"))
           end
      else inr (str dflt)
  | None => inr (str dflt)
  end.

(** The rest of the [try] block of the dashboard's [startBot], once the fetch
    and then [response.json()] have settled.  The message is converted where
    [showToast] writes it to [textContent], before the toast is attached and
    its timeout set, and where [new Error] takes it: a conversion that throws
    does so before anything is shown. *)
Definition startBotBody (o : botOutcome) : method :=
  match o with
  | BotFetchFailed e => throw e
  | BotResponse status body =>
      match body with
      | JsonFailed e => throw e
      | Json result =>
          if responseOk status
          then match readProperty result "message" with
               | inl e => throw e
               | inr m =>
                   match orDefault m "PDF processing started successfully" with
                   | inl e => throw e
                   | inr msg =>
                       showToast msg "success" ;;
                       setStatus "Completed" "success"
                   end
               end
          else match readProperty result "error" with
               | inl e => throw e
               | inr m =>
                   match orDefault m "Failed to start bot" with
                   | inl e => throw e
                   | inr msg => throw (Error msg)
                   end
               end
      end
  end.

Definition startBotCatch (e : error) : method :=
  act (push_console (str "Error starting bot:", messageOf e)) ;;
  setStatus "Error" "error" ;;
  showToast (str "Error: " ++ messageOf e) "error" ;;
  addLogEntry (str "Error starting bot: " ++ messageOf e) "error".

Definition startBotFinally : method :=
  act (set_isBotRunning false) ;;
  act (set_startBotBtn_disabled false) ;;
  act (set_stopBotBtn_disabled true) ;;
  act (set_scheduleEnabled_disabled false) ;;
  act (set_scheduleInterval_disabled false) ;;
  act (set_scheduleUnit_disabled false).

Definition startBotSettled (o : botOutcome) : method :=
  tryCatchFinally (startBotBody o) startBotCatch startBotFinally.

Definition clearScheduledTask : method :=
  when (fun v => handleTruthy (scheduledTask v))
    (fun v =>
       match scheduledTask v with
       | Some h => Done (set_scheduledTask None (clearInterval h v))
       | None => Done v
       end).

Definition stopBot : method :=
  unless (fun v => negb (isBotRunning v))
    (act (set_isBotRunning false) ;;
     act (set_startBotBtn_disabled false) ;;
     act (set_stopBotBtn_disabled true) ;;
     act (set_scheduleEnabled_disabled false) ;;
     act (set_scheduleInterval_disabled false) ;;
     act (set_scheduleUnit_disabled false) ;;
     set_scheduleBtn_disabled false ;;
     clearScheduledTask ;;
     addLogEntry (str "Bot stopped") "info" ;;
     setStatus "Bot Stopped" "error").

(** ** Schedule controls *)

Definition scheduleBot (w : variant) (intervalMs : Z) : method :=
  clearScheduledTask ;;
  (fun v => let '(h, v') := setInterval ScheduleTick intervalMs v in
            Done (set_scheduledTask (Some h) v')) ;;
  when (fun v => negb (isBotRunning v)) (startBot w).

(** [parseInt(this.scheduleInterval.value) || 5] *)
Definition intervalOf (v : viewer) : Z :=
  orElse (parseInt (scheduleInterval_value (inp v))) 5.

(** The products are exact integers, as those of the code are up to 2^53. *)
Definition millisecondsOf (interval : Z) (unit : jsstring) : Z :=
  let milliseconds := (interval * 1000)%Z in
  let milliseconds :=
    if jsEqb unit (str "minutes") then (interval * 60 * 1000)%Z else milliseconds in
  let milliseconds :=
    if jsEqb unit (str "hours") then (interval * 60 * 60 * 1000)%Z else milliseconds in
  milliseconds.

Definition enableSchedule (w : variant) : method :=
  fun v =>
    let interval := intervalOf v in
    let unit := scheduleUnit_value (inp v) in
    let milliseconds := millisecondsOf interval unit in
    if (milliseconds <? 1000)%Z
    then (showError (str "Interval must be at least 1 second") ;;
          act (set_scheduleEnabled_checked false)) v
    else (scheduleBot w milliseconds ;;
          addLogEntry (str "Bot scheduled to run every " ++ showZ interval ++ str " "
                           ++ unit) "info") v.

Definition disableSchedule : method :=
  clearScheduledTask ;;
  addLogEntry (str "Schedule disabled") "info".

Definition handleScheduleToggle (w : variant) : method :=
  ifElse (fun v => scheduleEnabled_checked (inp v)) (enableSchedule w) disableSchedule.

Definition updateScheduleIfEnabled (w : variant) : method :=
  when (fun v => scheduleEnabled_checked (inp v)) (enableSchedule w).

(** ** The page as a whole *)

(** The constructor: the elements come from the page as it is, the state
    starts empty.  [botScheduleInterval] is written here and never read. *)
Definition construct (c : controls) (i : inputs) (o : display) : viewer :=
  Viewer c i o (Browser [] 1 [] 0 0) None false false None None.

(** What can happen on the page.  A change event arrives after the browser
    has written the new state of the control. *)
Inductive event : Type :=
| ClickRefresh
| ClickClear
| ChangeAutoRefresh (checked : bool)
| ClickStart
| ClickStop
| ChangeScheduleEnabled (checked : bool)
| ChangeScheduleInterval (value : jsstring)
| ChangeScheduleUnit (value : jsstring)
| Tick (h : handle)
| LogsSettle (o : logsOutcome)
| BotSettle (o : botOutcome)
| ToastTimeout                      (* a toast starts to fade, 5 s after it was shown *)
| VisibilityChange (hidden : bool).

Definition runCallback (w : variant) (cb : callback) : method :=
  match cb with
  | RefreshTick => loadLogs w
  | ScheduleTick =>
      when (fun v => negb (isBotRunning v)) (startBot w) ;;
      addLogEntry (str "Scheduled bot task executed") "info"
  end.

Definition dispatch (w : variant) (e : event) : method :=
  match e with
  | ClickRefresh => loadLogs w
  | ClickClear => clearLogs
  | ChangeAutoRefresh checked =>
      act (set_autoRefreshCheckbox_checked checked) ;;
      (if checked then startAutoRefresh w else stopAutoRefresh)
  | ClickStart => startBot w
  | ClickStop => stopBot
  | ChangeScheduleEnabled checked =>
      act (set_scheduleEnabled_checked checked) ;; handleScheduleToggle w
  | ChangeScheduleInterval value =>
      act (set_scheduleInterval_value value) ;; updateScheduleIfEnabled w
  | ChangeScheduleUnit value =>
      act (set_scheduleUnit_value value) ;; updateScheduleIfEnabled w
  | Tick h =>
      fun v =>
        match find (fun t => timerId t =? h) (timers (env v)) with
        | Some t => runCallback w (timerCallback t) v
        | None => Done v
        end
  | LogsSettle o =>
      fun v =>
        match pendingLogs (env v) with
        | O => Done v
        | S n => loadLogsSettled w o (set_pendingLogs n v)
        end
  | BotSettle o =>
      fun v =>
        match pendingBot (env v) with
        | O => Done v
        | S n => startBotSettled o (set_pendingBot n v)
        end
  | ToastTimeout =>
      (* setTimeout(() => toast.remove(), 500) *)
      act setTimeout
  | VisibilityChange _ =>
      (* window.logViewer is never assigned: the handler finds nothing *)
      skip
  end.

(** An exception that leaves a handler is reported by the browser and the
    page goes on with the state as written so far. *)
Fixpoint run (w : variant) (es : list event) (v : viewer) : viewer :=
  match es with
  | [] => v
  | e :: es' => run w es' (stateOf (dispatch w e v))
  end.

(** * The specification's notions *)

(** ** Case-insensitive search *)

Definition isUpper (c : ascii) : Prop :=
  (65 <= code c /\ code c <= 90)
  \/ (192 <= code c /\ code c <= 222 /\ code c <> 215).

(** Two code units are the same letter up to case. *)
Definition caseEq (a b : ascii) : Prop :=
  a = b
  \/ (isUpper a /\ code b = code a + 32)
  \/ (isUpper b /\ code a = code b + 32).

(** [word] occurs in [line], letter case ignored. *)
Definition containsIgnoringCase (word line : jsstring) : Prop :=
  exists pre mid post, line = pre ++ mid ++ post /\ Forall2 caseEq mid word.

Definition mentions (words : list jsstring) (line : jsstring) : Prop :=
  exists word, In word words /\ containsIgnoringCase word line.

Definition errorWords : list jsstring := [str "error"; str "exception"; str "failed"].
Definition warningWords : list jsstring := [str "warning"; str "warn"].
Definition successWords : list jsstring := [str "success"; str "completed"; str "ok"].
Definition infoWords : list jsstring := [str "info"; str "debug"].

(** ** Matches of a pattern *)

(** [m] has the shape of the pattern, atom by atom. *)
Definition fits (p : regex) (m : jsstring) : Prop :=
  Forall2 (fun a c => accepts a c = true) p m.

(** The pattern matches [m] at offset [i] of the line. *)
Definition matchesAt (p : regex) (line : jsstring) (i : nat) (m : jsstring) : Prop :=
  exists pre post, line = pre ++ m ++ post /\ List.length pre = i /\ fits p m.

Definition matchesIn (p : regex) (line : jsstring) : Prop :=
  exists i m, matchesAt p line i m.

(** [m] is the leftmost match of the pattern in the line. *)
Definition leftmost (p : regex) (line m : jsstring) : Prop :=
  exists i, matchesAt p line i m /\ forall j m', j < i -> ~ matchesAt p line j m'.

(** The result of trying the patterns in the order of the list: the leftmost
    match of the first pattern that matches anywhere, or nothing. *)
Inductive firstInOrder (line : jsstring) : list regex -> option jsstring -> Prop :=
| fio_none : firstInOrder line [] None
| fio_here p ps m : leftmost p line m -> firstInOrder line (p :: ps) (Some m)
| fio_later p ps r :
    ~ matchesIn p line -> firstInOrder line ps r -> firstInOrder line (p :: ps) r.

(** The order in which the specification lists the patterns. *)
Definition specOrder : list regex :=
  [isoPattern; usPattern; bracketPattern; timePattern].

(** ** The settlement of the trigger, in the specification's words *)

(** A usable payload: a JSON body containing a message. *)
Definition usablePayload (body : jsonOutcome) : bool :=
  match body with
  | Json (JObject fields) =>
      match lookup (str "message") fields with
      | Some _ => true
      | None => false
      end
  | _ => false
  end.

(** A failure: a request that does not complete, a non-2xx response, or a
    2xx response with no usable payload. *)
Definition specFailure (o : botOutcome) : bool :=
  match o with
  | BotFetchFailed _ => true
  | BotResponse status body => negb (responseOk status) || negb (usablePayload body)
  end.

(** ** Notions used in the proofs about text *)

Definition lowercase (word : jsstring) : Prop := Forall (fun k => ~ isUpper k) word.

Definition mentionsb (words : list jsstring) (line : jsstring) : bool :=
  existsb (includes (toLowerCase line)) words.

Definition spaces (s : jsstring) : Prop := Forall (fun c => isSpace c = true) s.

Definition entityTail : jsstring := str "amp;nbsp;lt;gt;".

(** A pattern that escaping cannot complete: no atom takes the ampersand,
    and the first atom takes no character of an entity. *)
Definition escapeSafe (p : regex) : bool :=
  forallb (fun a => negb (accepts a "&"%char)) p
  && match p with
     | [] => false
     | a :: _ => forallb (fun x => negb (accepts a x)) entityTail
     end.

(** ** Notions used in the statements about the controllers *)

(** [m] keeps [P], whether it returns or throws. *)
Definition preserves (P : viewer -> Prop) (m : method) : Prop :=
  forall v, P v -> P (stateOf (m v)).

(** What the state invariants read: the flags and handles of the viewer,
    the timers and the number of log fetches in flight.  The display, the
    controls and the inputs are outside. *)
Definition core (v : viewer) :=
  (isLoading v, scheduledTask v, autoRefreshInterval v, scheduleBtn v,
   timers (env v), nextHandle (env v), pendingLogs (env v)).

Definition noScheduleBtn (v : viewer) : Prop := scheduleBtn v = None.

(** The controls as they stand when no bot runs: start enabled, stop
    disabled, the three schedule controls enabled. *)
Definition idleControls : controls := Controls false true false false false.

(** The message of a body can be shown: there is none or it is falsy, and
    the default is shown in its place, or its conversion to a string
    returns. *)
Definition showable (m : option json) : bool :=
  match m with
  | Some j =>
      negb (jsonTruthy j) || match toStr j with Some _ => true | None => false end
  | None => true
  end.

(** The settlements the dashboard's [startBot] takes as a failure: the fetch
    itself fails, the status is not 2xx, the body of a 2xx response is not
    JSON, or is [null] (nothing to read a property from), or its message
    cannot be converted to a string.  Every other 2xx body is a success,
    with or without a message. *)
Definition botFailed (o : botOutcome) : bool :=
  match o with
  | BotFetchFailed _ => true
  | BotResponse status (JsonFailed _) => true
  | BotResponse status (Json result) =>
      negb (responseOk status)
      || match result with
         | JNull => true
         | JObject fields => negb (showable (lookup (str "message") fields))
         | _ => false
         end
  end.

(** The fetches in flight are one while the loading flag is up and none
    otherwise. *)
Definition loadInv (v : viewer) : Prop :=
  pendingLogs (env v) = if isLoading v then 1 else 0.

Definition isSchedule (t : timer) : bool :=
  match timerCallback t with
  | ScheduleTick => true
  | RefreshTick => false
  end.

(** The schedule timers alive on the page. *)
Definition scheduleTimers (v : viewer) : list timer :=
  filter isSchedule (timers (env v)).

(** Timer identifiers are positive, below the next one and distinct, and a
    schedule timer that is alive is the one [scheduledTask] holds. *)
Definition timersOk (ts : list timer) (next : handle) (task : option handle) : Prop :=
  1 <= next
  /\ Forall (fun t => 1 <= timerId t /\ timerId t < next) ts
  /\ NoDup (map timerId ts)
  /\ (forall t, In t ts -> isSchedule t = true -> task = Some (timerId t)).

Definition timerInv (v : viewer) : Prop :=
  timersOk (timers (env v)) (nextHandle (env v)) (scheduledTask v).

(** The events that apply the schedule again: checking the toggle, or
    editing the interval or the unit while the toggle is checked. *)
Definition reapplies (e : event) (v : viewer) : bool :=
  match e with
  | ChangeScheduleEnabled checked => checked
  | ChangeScheduleInterval _ | ChangeScheduleUnit _ => scheduleEnabled_checked (inp v)
  | _ => false
  end.

(** The viewer once the browser has written the edited control. *)
Definition written (e : event) (v : viewer) : viewer :=
  match e with
  | ChangeScheduleEnabled checked => set_scheduleEnabled_checked checked v
  | ChangeScheduleInterval value => set_scheduleInterval_value value v
  | ChangeScheduleUnit value => set_scheduleUnit_value value v
  | _ => v
  end.

(** The interval in milliseconds that the inputs ask for. *)
Definition requested (v : viewer) : Z :=
  millisecondsOf (intervalOf v) (scheduleUnit_value (inp v)).

(** ** Notions used in the further properties *)

(** The part of the first two patterns that comes before the time of day. *)
Definition isoDate : regex := d 4 ++ lit "-" ++ d 2 ++ lit "-" ++ d 2 ++ [Space].
Definition usDate : regex := d 2 ++ lit "/" ++ d 2 ++ lit "/" ++ d 4 ++ [Space].

(** The lines that [displayLogs] shows, in the order it shows them. *)
Definition shownLines (logText : jsstring) : list jsstring :=
  rev (filter nonBlank (split newline logText)).

(** An entry that is one element whatever its text: every node but an
    entry added with a message that holds a [<]. *)
Definition plainEntry (n : node) : bool :=
  match n with
  | Added _ message => negb (existsb (Ascii.eqb "<"%char) message)
  | _ => true
  end.

(** The number of [.log-line] children of [logContent]. *)
Definition logLineCount (v : viewer) : nat :=
  List.length (filter isLogLine (logContent (out v))).

(** What the invariants of the display, the controls and the timers read. *)
Definition wide (v : viewer) :=
  (ctl v, isBotRunning v, logContent (out v), totalLines (out v),
   autoRefreshInterval v, scheduledTask v, timers (env v), nextHandle (env v)).

(** The six writes that open [startBot]: the running flag goes up and the
    controls take their running state. *)
Definition raiseFlags : method :=
  act (set_isBotRunning true) ;;
  act (set_startBotBtn_disabled true) ;;
  act (set_stopBotBtn_disabled false) ;;
  act (set_scheduleEnabled_disabled true) ;;
  act (set_scheduleInterval_disabled true) ;;
  act (set_scheduleUnit_disabled true).

(** The controls while a bot runs: start disabled, stop enabled, the three
    schedule controls disabled. *)
Definition runningControls : controls := Controls true false true true true.

(** The counter shows the number of log entries displayed. *)
Definition counterInv (v : viewer) : Prop := totalLines (out v) = logLineCount v.

(** The five controls follow the running flag. *)
Definition controlsInv (v : viewer) : Prop :=
  ctl v = if isBotRunning v then runningControls else idleControls.

Definition callbackEqb (a b : callback) : bool :=
  match a, b with
  | RefreshTick, RefreshTick | ScheduleTick, ScheduleTick => true
  | _, _ => false
  end.

(** The timer runs the callback [cb]. *)
Definition firesAs (cb : callback) (t : timer) : bool :=
  callbackEqb (timerCallback t) cb.

(** The refresh timers alive on the page. *)
Definition refreshTimers (v : viewer) : list timer :=
  filter (firesAs RefreshTick) (timers (env v)).

(** The property of the viewer that holds the handle of the timers of a
    callback. *)
Definition handleOf (cb : callback) (v : viewer) : option handle :=
  match cb with
  | RefreshTick => autoRefreshInterval v
  | ScheduleTick => scheduledTask v
  end.

(** Identifiers are positive, below the next one and distinct; for each of
    the two callbacks, the timers alive are exactly the one whose identifier
    the viewer holds, or none when it holds none; a refresh timer has a
    period of 5000 ms. *)
Definition handlesOk (ts : list timer) (next : handle)
           (hs : callback -> option handle) : Prop :=
  1 <= next
  /\ Forall (fun t => 1 <= timerId t /\ timerId t < next) ts
  /\ NoDup (map timerId ts)
  /\ (forall cb,
         match hs cb with
         | Some n => exists delay, filter (firesAs cb) ts = [Timer n cb delay]
         | None => filter (firesAs cb) ts = []
         end)
  /\ Forall (fun t => timerCallback t = RefreshTick -> timerDelay t = 5000%Z) ts.

Definition handlesInv (v : viewer) : Prop :=
  handlesOk (timers (env v)) (nextHandle (env v)) (fun cb => handleOf cb v).

(** Milliseconds per unit, as [enableSchedule] converts: hours, minutes, and
    seconds for every other value of the unit. *)
Definition unitFactor (unit : jsstring) : Z :=
  if jsEqb unit (str "hours") then 3600000%Z
  else if jsEqb unit (str "minutes") then 60000%Z
  else 1000%Z.

(** The error that a settlement of the log fetch raises inside [loadLogs],
    if it raises one: the fetch fails, the status is not 2xx, or the body
    cannot be read. *)
Definition logsFailure (o : logsOutcome) : option error :=
  match o with
  | LogsFetchFailed e => Some e
  | LogsResponse status statusText body =>
      if responseOk status
      then match body with
           | TextFailed e => Some e
           | Text _ => None
           end
      else Some (Error (str "Failed to load logs: " ++ showNat status ++ str " "
                            ++ statusText))
  end.

(** The text a settlement delivers, when it delivers one. *)
Definition logsText (o : logsOutcome) : option jsstring :=
  match o with
  | LogsResponse status _ (Text logText) =>
      if responseOk status then Some logText else None
  | _ => None
  end.

(** Start pressed, then stop, [n] times over. *)
Definition rounds (n : nat) : list event := concat (repeat [ClickStart; ClickStop] n).

(** * Properties of the text functions *)

Section Chars.

Lemma code_inj (a b : ascii) : code a = code b -> a = b.
Proof.
  unfold code; intros H.
  rewrite <- (ascii_nat_embedding a), <- (ascii_nat_embedding b), H.
  reflexivity.
Qed.

Lemma code_bounded (a : ascii) : code a < 256.
Proof. apply nat_ascii_bounded. Qed.

Lemma code_of_nat (n : nat) : n < 256 -> code (ascii_of_nat n) = n.
Proof. apply nat_ascii_embedding. Qed.

Lemma toLowerChar_upper (c : ascii) :
  isUpper c -> code (toLowerChar c) = code c + 32.
Proof.
  intros U. pose proof (code_bounded c) as B. unfold toLowerChar.
  destruct (((65 <=? code c) && (code c <=? 90))
            || ((192 <=? code c) && (code c <=? 222) && negb (code c =? 215))) eqn:E.
  - apply code_of_nat. unfold isUpper in U. lia.
  - exfalso. unfold isUpper in U.
    rewrite orb_false_iff, !andb_false_iff, negb_false_iff, !Nat.leb_gt, Nat.eqb_eq in E.
    lia.
Qed.

Lemma toLowerChar_not_upper (c : ascii) : ~ isUpper c -> toLowerChar c = c.
Proof.
  intros U. unfold toLowerChar.
  destruct (((65 <=? code c) && (code c <=? 90))
            || ((192 <=? code c) && (code c <=? 222) && negb (code c =? 215))) eqn:E;
    [|reflexivity].
  exfalso; apply U. unfold isUpper.
  rewrite orb_true_iff, !andb_true_iff, negb_true_iff, !Nat.leb_le, Nat.eqb_neq in E.
  lia.
Qed.

Lemma isUpper_dec (c : ascii) : isUpper c \/ ~ isUpper c.
Proof. unfold isUpper. lia. Qed.

(** Against a letter that is not a capital, being the same letter up to
    case is being equal after [toLowerCase]. *)
Lemma caseEq_lower (c k : ascii) :
  ~ isUpper k -> (caseEq c k <-> toLowerChar c = k).
Proof.
  intros K. split.
  - intros [->|[[U E]|[U _]]].
    + now apply toLowerChar_not_upper.
    + apply code_inj. rewrite E. now apply toLowerChar_upper.
    + contradiction.
  - intros <-. destruct (isUpper_dec c) as [U|U].
    + right; left. split; [assumption|]. now apply toLowerChar_upper.
    + left. symmetry. now apply toLowerChar_not_upper.
Qed.

End Chars.

Lemma caseEq_word (word : jsstring) :
  lowercase word ->
  forall mid, Forall2 caseEq mid word <-> toLowerCase mid = word.
Proof.
  induction 1 as [|k word K _ IH]; intros mid; split.
  - inversion 1; reflexivity.
  - destruct mid; [constructor | discriminate].
  - inversion 1 as [|c ? mid' ? Hc Hm]; subst. simpl.
    f_equal; [now apply caseEq_lower | now apply IH].
  - destruct mid as [|c mid']; [discriminate|]. simpl. intros E.
    injection E as Ec Em. constructor; [now apply caseEq_lower | now apply IH].
Qed.

Lemma startsWith_iff (needle s : jsstring) :
  startsWith needle s = true <-> exists post, s = needle ++ post.
Proof.
  revert s. induction needle as [|a needle IH]; intros s; simpl.
  - split; [intros _; now exists s | reflexivity].
  - destruct s as [|b s].
    + split; [discriminate | intros [post E]; discriminate].
    + rewrite andb_true_iff, IH. split.
      * intros [E [post ->]]. apply Ascii.eqb_eq in E as ->. now exists post.
      * intros [post E]. injection E as -> ->. split; [apply Ascii.eqb_refl | now exists post].
Qed.

Lemma includes_iff (s needle : jsstring) :
  includes s needle = true <-> exists pre post, s = pre ++ needle ++ post.
Proof.
  induction s as [|c s IH]; simpl.
  - rewrite orb_false_r, startsWith_iff. split.
    + intros [post E]. now exists [], post.
    + intros [pre [post E]]. destruct pre; [now exists post|discriminate].
  - rewrite orb_true_iff, startsWith_iff, IH. split.
    + intros [[post E]|[pre [post E]]].
      * now exists [], post.
      * exists (c :: pre), post. now rewrite E.
    + intros [[|c' pre] [post E]].
      * left. now exists post.
      * right. injection E as _ E. now exists pre, post.
Qed.

(** The search of [getLogClass] is the case-insensitive search of the
    specification, for a word written in small letters. *)
Lemma includes_lower_iff (word line : jsstring) :
  lowercase word ->
  includes (toLowerCase line) word = true <-> containsIgnoringCase word line.
Proof.
  intros L. rewrite includes_iff. unfold containsIgnoringCase, toLowerCase. split.
  - intros [pre [post E]].
    apply map_eq_app in E as [pre' [rest [-> [Epre E]]]].
    apply map_eq_app in E as [mid [post' [-> [Emid Epost]]]].
    exists pre', mid, post'. split; [reflexivity|]. now apply caseEq_word.
  - intros [pre [mid [post [-> F]]]]. apply caseEq_word in F; [|assumption].
    exists (map toLowerChar pre), (map toLowerChar post).
    rewrite !map_app. unfold toLowerCase in F. now rewrite F.
Qed.

Lemma mentionsb_iff (words : list jsstring) (line : jsstring) :
  Forall lowercase words ->
  mentionsb words line = true <-> mentions words line.
Proof.
  intros L. unfold mentionsb, mentions. rewrite existsb_exists.
  rewrite Forall_forall in L.
  split; intros [word [I H]]; exists word; (split; [assumption|]);
    apply (includes_lower_iff word line (L word I)); assumption.
Qed.

Lemma lowercase_str_dec (word : jsstring) :
  forallb (fun k => negb (((65 <=? code k) && (code k <=? 90))
                          || ((192 <=? code k) && (code k <=? 222)))) word = true ->
  lowercase word.
Proof.
  intros H. apply Forall_forall. intros k I U.
  rewrite forallb_forall in H. specialize (H k I).
  rewrite negb_true_iff, orb_false_iff, !andb_false_iff, !Nat.leb_gt in H.
  unfold isUpper in U. lia.
Qed.

Lemma keywords_lowercase :
  Forall lowercase errorWords /\ Forall lowercase warningWords
  /\ Forall lowercase successWords /\ Forall lowercase infoWords.
Proof.
  repeat split;
    repeat (apply Forall_cons; [apply lowercase_str_dec; reflexivity|]);
    apply Forall_nil.
Qed.

Lemma getLogClass_unfold (line : jsstring) :
  getLogClass line =
  if mentionsb errorWords line then str "error"
  else if mentionsb warningWords line then str "warning"
  else if mentionsb successWords line then str "success"
  else if mentionsb infoWords line then str "info"
  else [].
Proof.
  unfold getLogClass, mentionsb, errorWords, warningWords, successWords, infoWords.
  cbn [existsb]. rewrite !orb_false_r, !orb_assoc. reflexivity.
Qed.

(** C7. For every raw log line the category is found by case-insensitive
    substring search in the fixed priority order: error, exception or failed
    give error; else warning or warn give warning; else success, completed or
    ok give success; else info or debug give info; else none.  In particular
    a line that mentions an error word is classified as error whatever else it
    mentions. *)
Theorem getLogClass_priority (line : jsstring) :
  (mentions errorWords line -> getLogClass line = str "error")
  /\ (~ mentions errorWords line -> mentions warningWords line ->
      getLogClass line = str "warning")
  /\ (~ mentions errorWords line -> ~ mentions warningWords line ->
      mentions successWords line -> getLogClass line = str "success")
  /\ (~ mentions errorWords line -> ~ mentions warningWords line ->
      ~ mentions successWords line -> mentions infoWords line ->
      getLogClass line = str "info")
  /\ (~ mentions errorWords line -> ~ mentions warningWords line ->
      ~ mentions successWords line -> ~ mentions infoWords line ->
      getLogClass line = []).
Proof.
  destruct keywords_lowercase as [Le [Lw [Ls Li]]].
  rewrite getLogClass_unfold.
  pose proof (mentionsb_iff _ line Le) as He.
  pose proof (mentionsb_iff _ line Lw) as Hw.
  pose proof (mentionsb_iff _ line Ls) as Hs.
  pose proof (mentionsb_iff _ line Li) as Hi.
  destruct (mentionsb errorWords line), (mentionsb warningWords line),
    (mentionsb successWords line), (mentionsb infoWords line);
    repeat split; intros; try reflexivity;
    repeat match goal with
      | H : ~ _, E : true = true <-> _ |- _ => exfalso; apply H, E; reflexivity
      | H : mentions ?w _, E : false = true <-> mentions ?w _ |- _ =>
          apply E in H; discriminate
      end.
Qed.

Lemma getLogClass_priority_witness :
  getLogClass (str "10:00:05 ERROR disk ok, warning cleared") = str "error".
Proof.
  apply (proj1 (getLogClass_priority (str "10:00:05 ERROR disk ok, warning cleared"))).
  exists (str "error"). split; [now left|].
  exists (str "10:00:05 "), (str "ERROR"), (str " disk ok, warning cleared").
  split; [reflexivity|].
  repeat apply Forall2_cons; try apply Forall2_nil;
    (right; left; split; [left; split; apply Nat.leb_le; reflexivity | reflexivity]).
Defined.

(** ** Matching *)

Lemma fits_length (p : regex) (m : jsstring) : fits p m -> List.length m = List.length p.
Proof. intros F. symmetry. exact (Forall2_length F). Qed.

Lemma matchHere_fits (p : regex) (m post : jsstring) :
  fits p m -> matchHere p (m ++ post) = true.
Proof.
  induction 1 as [|a c p m A _ IH]; simpl.
  - now destruct post.
  - now rewrite A, IH.
Qed.

Lemma matchHere_split (p : regex) (s : jsstring) :
  matchHere p s = true ->
  fits p (firstn (List.length p) s)
  /\ s = firstn (List.length p) s ++ skipn (List.length p) s.
Proof.
  intros H. split; [|symmetry; apply firstn_skipn].
  revert s H. induction p as [|a p IH]; intros s H; simpl.
  - constructor.
  - destruct s as [|c s]; [discriminate|]. simpl in H.
    apply andb_true_iff in H as [A H]. constructor; [assumption | now apply IH].
Qed.

Lemma matchesAt_zero (p : regex) (s m : jsstring) :
  matchesAt p s 0 m -> matchHere p s = true /\ m = firstn (List.length p) s.
Proof.
  intros [pre [post [-> [L F]]]]. destruct pre; [|discriminate]. simpl. split.
  - now apply matchHere_fits.
  - rewrite <- (fits_length _ _ F), firstn_app, Nat.sub_diag, firstn_all. simpl.
    now rewrite app_nil_r.
Qed.

Lemma matchesAt_succ (p : regex) (c : ascii) (s m : jsstring) (i : nat) :
  matchesAt p (c :: s) (S i) m <-> matchesAt p s i m.
Proof.
  split.
  - intros [pre [post [E [L F]]]]. destruct pre as [|c' pre]; [discriminate|].
    injection E as _ ->. injection L as L. now exists pre, post.
  - intros [pre [post [-> [L F]]]]. exists (c :: pre), post. simpl. now rewrite L.
Qed.

Lemma matchHere_matchesAt (p : regex) (s : jsstring) :
  matchHere p s = true -> matchesAt p s 0 (firstn (List.length p) s).
Proof.
  intros H. apply matchHere_split in H as [F E].
  exists [], (skipn (List.length p) s). simpl. now rewrite <- E.
Qed.

(** [exec] returns the leftmost match... *)
Lemma exec_some (p : regex) (s m : jsstring) : exec p s = Some m -> leftmost p s m.
Proof.
  induction s as [|c s IH]; simpl; destruct (matchHere p _) eqn:H; intros E;
    try discriminate.
  - injection E as <-. exists 0. split; [now apply matchHere_matchesAt | lia].
  - injection E as <-. exists 0. split; [now apply matchHere_matchesAt | lia].
  - destruct (IH E) as [i [M Lm]]. exists (S i). split.
    + now apply matchesAt_succ.
    + intros [|j] m' Lt M'.
      * apply matchesAt_zero in M' as [M' _]. congruence.
      * apply matchesAt_succ in M'. apply (Lm j m'); [lia | assumption].
Qed.

(** ... and [null] only when the pattern matches nowhere. *)
Lemma exec_none (p : regex) (s : jsstring) : exec p s = None -> ~ matchesIn p s.
Proof.
  induction s as [|c s IH]; simpl; destruct (matchHere p _) eqn:H; intros E;
    try discriminate; intros [i [m M]].
  - destruct M as [pre [post [E' [L F]]]].
    destruct pre; [|discriminate]. destruct m; [|discriminate].
    inversion F; subst. discriminate.
  - destruct i as [|i].
    + apply matchesAt_zero in M as [M _]. congruence.
    + apply matchesAt_succ in M. apply (IH E). now exists i, m.
Qed.

Lemma exec_matchesIn (p : regex) (s : jsstring) :
  matchesIn p s -> exists m, exec p s = Some m.
Proof.
  intros M. destruct (exec p s) as [m|] eqn:E; [now exists m|].
  now apply exec_none in E.
Qed.

Lemma exec_fits (p : regex) (s m : jsstring) : exec p s = Some m -> fits p m.
Proof. intros E. apply exec_some in E as [i [[pre [post [_ [_ F]]]] _]]. exact F. Qed.

Lemma app_same_length {A : Type} (a b x y : list A) :
  List.length a = List.length b -> a ++ x = b ++ y -> a = b /\ x = y.
Proof.
  revert b. induction a as [|h a IH]; intros [|k b] L E; try discriminate.
  - now split.
  - injection E as -> E. injection L as L. destruct (IH b L E) as [-> ->]. now split.
Qed.

Lemma leftmost_unique (p : regex) (s m1 m2 : jsstring) :
  leftmost p s m1 -> leftmost p s m2 -> m1 = m2.
Proof.
  intros [i [M1 L1]] [j [M2 L2]].
  assert (i = j) as ->.
  { destruct (Nat.lt_trichotomy i j) as [Lt|[E|Lt]]; [|assumption|].
    - exfalso. exact (L2 i m1 Lt M1).
    - exfalso. exact (L1 j m2 Lt M2). }
  destruct M1 as [pre1 [post1 [E1 [Len1 F1]]]], M2 as [pre2 [post2 [E2 [Len2 F2]]]].
  rewrite E1 in E2.
  apply app_same_length in E2 as [_ E2]; [|congruence].
  apply app_same_length in E2 as [E2 _]; [assumption|].
  now rewrite (fits_length _ _ F1), (fits_length _ _ F2).
Qed.

Lemma firstMatch_inOrder (ps : list regex) (line : jsstring) :
  firstInOrder line ps (firstMatch ps line).
Proof.
  induction ps as [|p ps IH]; simpl.
  - constructor.
  - destruct (exec p line) as [m|] eqn:E.
    + apply fio_here. now apply exec_some.
    + apply fio_later; [now apply exec_none | exact IH].
Qed.

(** Trying the patterns in a given order has one result only. *)
Lemma firstInOrder_unique (line : jsstring) (ps : list regex) (r1 r2 : option jsstring) :
  firstInOrder line ps r1 -> firstInOrder line ps r2 -> r1 = r2.
Proof.
  induction 1 as [|p ps m L|p ps r N _ IH]; inversion 1; subst.
  - reflexivity.
  - f_equal. eapply leftmost_unique; eassumption.
  - exfalso. match goal with H : ~ matchesIn _ _ |- _ => apply H end.
    destruct L as [i [M _]]. now exists i, m.
  - exfalso. apply N.
    match goal with H : leftmost _ _ ?m |- _ => destruct H as [i [M _]]; now exists i, m end.
  - now apply IH.
Qed.

(** ** The bracketed pattern never decides *)

Lemma bracketPattern_shape :
  bracketPattern = Lit "["%char :: isoPattern ++ [Lit "]"%char].
Proof. reflexivity. Qed.

Lemma fits_app_inv (p q : regex) (m : jsstring) :
  fits (p ++ q) m -> exists m1 m2, m = m1 ++ m2 /\ fits p m1 /\ fits q m2.
Proof.
  intros F. apply Forall2_app_inv_l in F as [m1 [m2 [F1 [F2 ->]]]]. now exists m1, m2.
Qed.

Lemma fits_enclosed (a b : ascii) (p : regex) (m : jsstring) :
  fits (Lit a :: p ++ [Lit b]) m ->
  exists inner, m = a :: inner ++ [b] /\ fits p inner.
Proof.
  intros F. inversion F as [|x c p' m' A F']; subst.
  apply fits_app_inv in F' as [inner [last [-> [Fi Fl]]]].
  inversion Fl as [|a2 c2 p2 m2 A2 F2]; subst. inversion F2; subst.
  simpl in A, A2. apply Ascii.eqb_eq in A as <-. apply Ascii.eqb_eq in A2 as <-.
  now exists inner.
Qed.

Lemma bracket_inner (m : jsstring) :
  fits bracketPattern m ->
  exists inner, m = "["%char :: inner ++ ["]"%char] /\ fits isoPattern inner.
Proof. rewrite bracketPattern_shape. apply fits_enclosed. Qed.

Lemma matchesAt_bracket_inner (line m : jsstring) (i : nat) :
  matchesAt bracketPattern line i m ->
  exists inner, m = "["%char :: inner ++ ["]"%char]
                /\ matchesAt isoPattern line (S i) inner.
Proof.
  intros [pre [post [-> [L F]]]].
  apply bracket_inner in F as [inner [-> F]].
  exists inner. split; [reflexivity|].
  exists (pre ++ ["["%char]), ("]"%char :: post). repeat split.
  - simpl. rewrite <- !app_assoc. reflexivity.
  - rewrite length_app. simpl. lia.
  - exact F.
Qed.

Lemma bracket_dead (line : jsstring) :
  exec isoPattern line = None -> exec bracketPattern line = None.
Proof.
  intros N. destruct (exec bracketPattern line) as [m|] eqn:E; [|reflexivity].
  exfalso. apply exec_some in E as [i [M _]].
  apply matchesAt_bracket_inner in M as [inner [_ M]].
  apply (exec_none _ _ N). now exists (S i), inner.
Qed.

Lemma extractTimestamp_specOrder (line : jsstring) :
  extractTimestamp line = firstMatch specOrder line.
Proof.
  unfold extractTimestamp, patterns, specOrder. cbn [firstMatch].
  destruct (exec isoPattern line) as [m|] eqn:E; [reflexivity|].
  rewrite (bracket_dead _ E).
  destruct (exec usPattern line); [reflexivity|].
  now destruct (exec timePattern line).
Qed.

(** C8. For every raw log line, the timestamp returned is the substring
    matched (leftmost) by the first pattern, in the order YYYY-MM-DD HH:MM:SS,
    MM/DD/YYYY HH:MM:SS, bracketed [[YYYY-MM-DD HH:MM:SS]], bare HH:MM:SS,
    that matches anywhere in the line, or none when no pattern matches; and
    that description has one answer only. *)
Theorem extractTimestamp_first_in_order (line : jsstring) :
  firstInOrder line specOrder (extractTimestamp line)
  /\ forall r, firstInOrder line specOrder r -> r = extractTimestamp line.
Proof.
  rewrite extractTimestamp_specOrder. split.
  - apply firstMatch_inOrder.
  - intros r H. eapply firstInOrder_unique; [exact H | apply firstMatch_inOrder].
Qed.

(** ** Removing the timestamp *)

(** [replaceFirst] takes out the first occurrence of the needle. *)
Lemma replaceFirst_found (s needle : jsstring) :
  includes s needle = true ->
  exists pre post,
    s = pre ++ needle ++ post
    /\ replaceFirst s needle = pre ++ post
    /\ forall pre' post', s = pre' ++ needle ++ post' -> List.length pre <= List.length pre'.
Proof.
  induction s as [|c s IH]; intros I.
  - simpl in I. rewrite orb_false_r in I. simpl. rewrite I.
    apply startsWith_iff in I as [post E]. destruct needle; [|discriminate].
    exists [], []. repeat split; simpl; intros; lia.
  - cbn [replaceFirst]. destruct (startsWith needle (c :: s)) eqn:S.
    + apply startsWith_iff in S as [post E]. exists [], post. repeat split.
      * exact E.
      * rewrite E, skipn_app, Nat.sub_diag, skipn_all. reflexivity.
      * simpl; intros; lia.
    + cbn [includes] in I. rewrite S in I. simpl in I.
      destruct (IH I) as [pre [post [E [R F]]]].
      exists (c :: pre), post. repeat split.
      * simpl. now rewrite <- E.
      * simpl. now rewrite R.
      * intros [|c' pre'] post' E'.
        -- exfalso. simpl in E'.
           assert (startsWith needle (c :: s) = true) as S'
               by (apply startsWith_iff; now exists post').
           congruence.
        -- injection E' as _ E'. simpl. apply le_n_S. exact (F pre' post' E').
Qed.

Lemma trimStart_split (s : jsstring) :
  exists a, s = a ++ trimStart s /\ spaces a.
Proof.
  induction s as [|c s [a [E F]]]; simpl.
  - exists []. split; [reflexivity | constructor].
  - destruct (isSpace c) eqn:S.
    + exists (c :: a). split; [simpl; now rewrite <- E | now constructor].
    + exists []. split; [reflexivity | constructor].
Qed.

(** [trim] only drops white space at the two ends. *)
Lemma trim_split (s : jsstring) :
  exists a b, s = a ++ trim s ++ b /\ spaces a /\ spaces b.
Proof.
  destruct (trimStart_split s) as [a [Ea Fa]].
  destruct (trimStart_split (rev (trimStart s))) as [b [Eb Fb]].
  exists a, (rev b). repeat split.
  - unfold trim, trimEnd. rewrite <- rev_app_distr, <- Eb, rev_involutive. exact Ea.
  - exact Fa.
  - unfold spaces. apply Forall_rev. exact Fb.
Qed.

Lemma matchesIn_inside (p : regex) (a x b : jsstring) :
  matchesIn p x -> matchesIn p (a ++ x ++ b).
Proof.
  intros [i [m [pre [post [-> [L F]]]]]].
  exists (List.length (a ++ pre)), m, (a ++ pre), (post ++ b).
  repeat split; [now rewrite <- !app_assoc | exact F].
Qed.

Lemma matchesIn_trim (p : regex) (s : jsstring) :
  matchesIn p (trim s) -> matchesIn p s.
Proof.
  intros M. destruct (trim_split s) as [a [b [E _]]].
  rewrite E. now apply matchesIn_inside.
Qed.

(** *** Escaping creates no match *)

Lemma escapeChar_cases (c : ascii) :
  escapeChar c = [c]
  \/ exists r, escapeChar c = "&"%char :: r /\ incl r entityTail.
Proof.
  unfold escapeChar.
  destruct (Ascii.eqb c "&"%char);
    [right; exists (str "amp;"); split; [reflexivity|]
    |destruct (code c =? 160);
     [right; exists (str "nbsp;"); split; [reflexivity|]
     |destruct (Ascii.eqb c "<"%char);
      [right; exists (str "lt;"); split; [reflexivity|]
      |destruct (Ascii.eqb c ">"%char);
       [right; exists (str "gt;"); split; [reflexivity|]
       |left; reflexivity]]]];
    intros x I; simpl in I; unfold entityTail; simpl; tauto.
Qed.

Lemma patterns_escapeSafe : forallb escapeSafe patterns = true.
Proof. reflexivity. Qed.

Lemma matchHere_escapeHtml (p : regex) (y : jsstring) :
  forallb (fun a => negb (accepts a "&"%char)) p = true ->
  matchHere p (escapeHtml y) = true -> matchHere p y = true.
Proof.
  revert y. induction p as [|a p IH]; intros y S H; [reflexivity|].
  simpl in S. apply andb_true_iff in S as [Sa S]. apply negb_true_iff in Sa.
  destruct y as [|c y]; [discriminate|].
  unfold escapeHtml in H. cbn [flat_map] in H. fold (escapeHtml y) in H.
  destruct (escapeChar_cases c) as [E|[r [E _]]]; rewrite E in H; simpl in H.
  - apply andb_true_iff in H as [A H]. simpl. rewrite A. now apply IH.
  - rewrite Sa in H. discriminate.
Qed.

Lemma exec_cons_some (p : regex) (c : ascii) (s : jsstring) :
  exec p s <> None -> exec p (c :: s) <> None.
Proof.
  intros H. cbn [exec]. destruct (matchHere p (c :: s)); [discriminate | exact H].
Qed.

Lemma exec_skip (a : atom) (p : regex) (e t : jsstring) :
  Forall (fun x => accepts a x = false) e ->
  exec (a :: p) (e ++ t) = exec (a :: p) t.
Proof.
  induction 1 as [|x e X _ IH]; [reflexivity|].
  simpl. now rewrite X.
Qed.

Lemma exec_escapeHtml (p : regex) (y : jsstring) :
  escapeSafe p = true -> exec p (escapeHtml y) <> None -> exec p y <> None.
Proof.
  unfold escapeSafe. intros S. apply andb_true_iff in S as [Samp Shead].
  destruct p as [|a p]; [discriminate|]. rewrite forallb_forall in Shead.
  induction y as [|c y IH]; [trivial|].
  unfold escapeHtml. cbn [flat_map]. fold (escapeHtml y).
  destruct (escapeChar_cases c) as [E|[r [E R]]]; rewrite E.
  - intros H. cbn [app exec] in H.
    destruct (matchHere (a :: p) (c :: escapeHtml y)) eqn:M.
    + assert (matchHere (a :: p) (escapeHtml (c :: y)) = true) as M'.
      { unfold escapeHtml. cbn [flat_map]. now rewrite E. }
      apply matchHere_escapeHtml in M'; [|assumption].
      cbn [exec]. rewrite M'. discriminate.
    + apply exec_cons_some, IH, H.
  - intros H. apply exec_cons_some, IH.
    change (("&"%char :: r) ++ escapeHtml y) with (["&"%char] ++ r ++ escapeHtml y) in H.
    rewrite exec_skip in H.
    + rewrite exec_skip in H; [exact H|].
      apply Forall_forall. intros x I. apply negb_true_iff, Shead, R, I.
    + constructor; [|constructor]. simpl in Samp.
      apply andb_true_iff in Samp as [Samp _]. now apply negb_true_iff.
Qed.

Lemma matchesIn_escapeHtml (p : regex) (y : jsstring) :
  In p patterns -> matchesIn p (escapeHtml y) -> matchesIn p y.
Proof.
  intros I M.
  pose proof patterns_escapeSafe as S. rewrite forallb_forall in S. specialize (S p I).
  destruct (exec_matchesIn _ _ M) as [m E].
  destruct (exec p y) as [m'|] eqn:E'.
  - apply exec_some in E' as [i [M' _]]. now exists i, m'.
  - exfalso. apply (exec_escapeHtml p y S); [congruence | exact E'].
Qed.

(** *** What extractTimestamp returns *)

Lemma firstMatch_In (ps : list regex) (line ts : jsstring) :
  firstMatch ps line = Some ts -> exists p, In p ps /\ exec p line = Some ts.
Proof.
  induction ps as [|p ps IH]; simpl; [discriminate|].
  destruct (exec p line) as [m|] eqn:E.
  - intros H. injection H as <-. exists p. now split; [left|].
  - intros H. destruct (IH H) as [q [I Q]]. exists q. now split; [right|].
Qed.

Lemma patterns_nonempty (p : regex) (m : jsstring) :
  In p patterns -> fits p m -> truthy m = true.
Proof.
  intros I F. destruct m; [|reflexivity]. exfalso.
  simpl in I. destruct I as [<-|[<-|[<-|[<-|[]]]]]; inversion F.
Qed.

Lemma matchesAt_includes (p : regex) (line m : jsstring) (i : nat) :
  matchesAt p line i m -> includes line m = true.
Proof. intros [pre [post [E _]]]. apply includes_iff. now exists pre, post. Qed.

(** The timestamp is cut at the leftmost match of the pattern that gave it,
    and the body is the rest of the line, trimmed and escaped. *)
Lemma stripTimestamp_cut (line ts : jsstring) :
  extractTimestamp line = Some ts ->
  exists p pre post,
    In p patterns /\ exec p line = Some ts
    /\ line = pre ++ ts ++ post
    /\ (forall j m, j < List.length pre -> ~ matchesAt p line j m)
    /\ stripTimestamp line = trim (pre ++ post).
Proof.
  intros X. destruct (firstMatch_In _ _ _ X) as [p [I E]].
  destruct (exec_some _ _ _ E) as [i [M Lm]].
  destruct (replaceFirst_found _ _ (matchesAt_includes _ _ _ _ M)) as [pre [post [El [R F]]]].
  exists p, pre, post. repeat split; try assumption.
  - intros j m Lt. apply Lm. destruct M as [pre' [post' [E' [L' _]]]].
    specialize (F pre' post' E'). lia.
  - unfold stripTimestamp. rewrite X.
    rewrite (patterns_nonempty _ _ I (exec_fits _ _ _ E)). now rewrite R.
Qed.

Lemma stripTimestamp_example :
  stripTimestamp (str "2024-01-01 10:00:00 ERROR Failed to connect")
  = str "ERROR Failed to connect".
Proof. reflexivity. Qed.

(** C3, as amended.  For every raw log line from which [extractTimestamp]
    returns a timestamp, [formatLogContent] removes one occurrence of it, the
    leftmost match of the pattern that gave the timestamp, and the body is the
    rest of the line (the text before and the text after, joined), trimmed and
    escaped.  A timestamp pattern matches the body only if it already matches
    that rest of the line; trimming and escaping add no match. *)
Theorem formatLogContent_round_trip (line ts : jsstring) :
  extractTimestamp line = Some ts ->
  exists p pre post,
    In p patterns /\ exec p line = Some ts
    /\ line = pre ++ ts ++ post
    /\ (forall j m, j < List.length pre -> ~ matchesAt p line j m)
    /\ formatLogContent line = escapeHtml (trim (pre ++ post))
    /\ (forall q, In q patterns ->
                  matchesIn q (formatLogContent line) -> matchesIn q (pre ++ post)).
Proof.
  intros X.
  destruct (stripTimestamp_cut line ts X) as [p [pre [post [I [E [El [Lm S]]]]]]].
  exists p, pre, post. unfold formatLogContent. rewrite S.
  repeat split; try assumption.
  intros q Iq M. apply matchesIn_trim. now apply matchesIn_escapeHtml.
Qed.

Lemma formatLogContent_round_trip_witness :
  exists p pre post,
    In p patterns
    /\ exec p (str "2024-01-01 10:00:00 ERROR Failed to connect")
       = Some (str "2024-01-01 10:00:00")
    /\ str "2024-01-01 10:00:00 ERROR Failed to connect"
       = pre ++ str "2024-01-01 10:00:00" ++ post
    /\ (forall j m, j < List.length pre ->
                    ~ matchesAt p (str "2024-01-01 10:00:00 ERROR Failed to connect") j m)
    /\ formatLogContent (str "2024-01-01 10:00:00 ERROR Failed to connect")
       = escapeHtml (trim (pre ++ post))
    /\ (forall q, In q patterns ->
                  matchesIn q (formatLogContent
                                 (str "2024-01-01 10:00:00 ERROR Failed to connect")) ->
                  matchesIn q (pre ++ post)).
Proof.
  exact (formatLogContent_round_trip
           (str "2024-01-01 10:00:00 ERROR Failed to connect")
           (str "2024-01-01 10:00:00") eq_refl).
Defined.

(** C3, as stated, fails on a line that holds two timestamps: the first is
    extracted and removed, and the pattern that gave it matches the body
    again, at the second. *)
Lemma round_trip_counterexample :
  extractTimestamp (str "2024-01-01 10:00:00 2024-01-02 11:00:00")
  = Some (str "2024-01-01 10:00:00")
  /\ exec isoPattern (str "2024-01-01 10:00:00 2024-01-02 11:00:00")
     = Some (str "2024-01-01 10:00:00")
  /\ formatLogContent (str "2024-01-01 10:00:00 2024-01-02 11:00:00")
     = str "2024-01-02 11:00:00"
  /\ exec isoPattern (formatLogContent (str "2024-01-01 10:00:00 2024-01-02 11:00:00"))
     = Some (str "2024-01-02 11:00:00").
Proof. repeat split; reflexivity. Qed.

(** It also fails on a line with one match only, when the removal joins
    digits that complete the pattern. *)
Lemma round_trip_joined_example :
  extractTimestamp (str "12:312:34:564:56") = Some (str "12:34:56")
  /\ exec timePattern (str "2:34:564:56") = None
  /\ formatLogContent (str "12:312:34:564:56") = str "12:34:56"
  /\ exec timePattern (formatLogContent (str "12:312:34:564:56"))
     = Some (str "12:34:56").
Proof. repeat split; reflexivity. Qed.

(** ** What is left of a bracketed timestamp *)

Lemma fits_no_char (c : ascii) (p : regex) (m : jsstring) :
  forallb (fun a => negb (accepts a c)) p = true -> fits p m -> ~ In c m.
Proof.
  intros S F. induction F as [|a x p m A _ IH]; [intros []|].
  simpl in S. apply andb_true_iff in S as [Sa S]. apply negb_true_iff in Sa.
  intros [<-|I]; [congruence | exact (IH S I)].
Qed.

Lemma In_trim (c : ascii) (s : jsstring) :
  isSpace c = false -> In c s -> In c (trim s).
Proof.
  intros S I. destruct (trim_split s) as [a [b [E [Fa Fb]]]].
  rewrite E in I. unfold spaces in Fa, Fb. rewrite Forall_forall in Fa, Fb.
  apply in_app_or in I as [I|I]; [apply Fa in I; congruence|].
  apply in_app_or in I as [I|I]; [exact I | apply Fb in I; congruence].
Qed.

Lemma In_escapeHtml (c : ascii) (s : jsstring) :
  escapeChar c = [c] -> In c s -> In c (escapeHtml s).
Proof.
  intros E I. unfold escapeHtml. apply in_flat_map. exists c.
  split; [exact I | rewrite E; now left].
Qed.

Lemma In_survives (c : ascii) (line ts : jsstring) :
  isSpace c = false -> escapeChar c = [c] ->
  extractTimestamp line = Some ts -> ~ In c ts ->
  In c line -> In c (formatLogContent line).
Proof.
  intros S Ec X N I.
  destruct (stripTimestamp_cut line ts X) as [p [pre [post [_ [_ [El [_ St]]]]]]].
  unfold formatLogContent. rewrite St.
  apply In_escapeHtml; [assumption|]. apply In_trim; [assumption|].
  rewrite El in I. apply in_or_app.
  apply in_app_or in I as [I|I]; [now left|].
  apply in_app_or in I as [I|I]; [contradiction | now right].
Qed.

Lemma extractTimestamp_source (line ts : jsstring) :
  extractTimestamp line = Some ts ->
  exists p, In p [isoPattern; usPattern; timePattern] /\ exec p line = Some ts.
Proof.
  unfold extractTimestamp, patterns. cbn [firstMatch].
  destruct (exec isoPattern line) as [m|] eqn:E1.
  { intros H. exists isoPattern. split; [now left | congruence]. }
  destruct (exec usPattern line) as [m|] eqn:E2.
  { intros H. exists usPattern. split; [right; now left | congruence]. }
  destruct (exec timePattern line) as [m|] eqn:E3.
  { intros H. exists timePattern. split; [right; right; now left | congruence]. }
  rewrite (bracket_dead _ E1). discriminate.
Qed.

(** C10. The bracketed pattern never decides.  For every line: where the
    bracketed pattern matches, the first pattern matches the text inside the
    brackets; so a timestamp returned by [extractTimestamp] comes from one of
    the three other patterns and is never a bracketed string; and a line in
    which a bracketed timestamp occurs keeps bracket characters in its
    displayed body. *)
Theorem bracketPattern_never_decides (line : jsstring) :
  (forall i m, matchesAt bracketPattern line i m ->
               exists inner, m = "["%char :: inner ++ ["]"%char]
                             /\ matchesAt isoPattern line (S i) inner)
  /\ (forall ts, extractTimestamp line = Some ts ->
                 (exists p, In p [isoPattern; usPattern; timePattern]
                            /\ exec p line = Some ts)
                 /\ ~ fits bracketPattern ts)
  /\ (matchesIn bracketPattern line ->
      In "["%char (formatLogContent line) /\ In "]"%char (formatLogContent line)).
Proof.
  split; [|split].
  - intros i m. apply matchesAt_bracket_inner.
  - intros ts X. destruct (extractTimestamp_source line ts X) as [p [I E]].
    split; [now exists p|].
    intros F. apply exec_fits in E.
    apply fits_length in E, F. rewrite F in E.
    simpl in I. destruct I as [<-|[<-|[<-|[]]]]; discriminate.
  - intros [i [m M]].
    destruct (matchesAt_bracket_inner line m i M) as [inner [-> Mi]].
    destruct (exec_matchesIn isoPattern line) as [ts E]; [now exists (S i), inner|].
    assert (extractTimestamp line = Some ts) as X.
    { unfold extractTimestamp, patterns. cbn [firstMatch]. now rewrite E. }
    apply exec_fits in E.
    destruct M as [pre [post [El _]]].
    split; apply (In_survives _ line ts); try reflexivity; try assumption.
    + apply (fits_no_char _ isoPattern); [reflexivity | assumption].
    + rewrite El. apply in_or_app. right. now left.
    + apply (fits_no_char _ isoPattern); [reflexivity | assumption].
    + rewrite El. apply in_or_app. right. apply in_or_app. left.
      right. apply in_or_app. right. now left.
Qed.

Lemma bracketPattern_never_decides_witness :
  In "["%char (formatLogContent (str "[2024-01-01 10:00:00] boot"))
  /\ In "]"%char (formatLogContent (str "[2024-01-01 10:00:00] boot")).
Proof.
  apply (proj2 (proj2 (bracketPattern_never_decides (str "[2024-01-01 10:00:00] boot")))).
  exists 0, (str "[2024-01-01 10:00:00]"), [], (str " boot").
  split; [reflexivity|]. split; [reflexivity|].
  repeat apply Forall2_cons; try apply Forall2_nil; reflexivity.
Defined.

(** The bracketed scenario itself: the timestamp comes out without its
    brackets and the body starts with the empty pair. *)
Lemma bracketed_line_example :
  extractTimestamp (str "[2024-01-01 10:00:00] boot") = Some (str "2024-01-01 10:00:00")
  /\ formatLogContent (str "[2024-01-01 10:00:00] boot") = str "[] boot".
Proof. split; reflexivity. Qed.

(** ** Rendering a log

    The two-line scenario: the newest line comes first, each entry has its
    category and its timestamp, and the body is the line without it. *)
Lemma displayLogs_scenario (v : viewer) :
  logContent
    (out (stateOf (displayLogs
                     (str "2024-01-01 10:00:00 ERROR Failed to connect"
                          ++ [newline] ++ str "2024-01-01 10:00:05 OK done" ++ [newline])
                     v)))
  = [Rendered (str "success") (Some (str "2024-01-01 10:00:05")) (str "OK done") 1;
     Rendered (str "error") (Some (str "2024-01-01 10:00:00"))
       (str "ERROR Failed to connect") 2].
Proof. destruct v as [? ? [] ? ? ? ? ? ?]. reflexivity. Qed.

(** Empty or blank text gives the placeholder and no entry. *)
Lemma displayLogs_blank (v : viewer) :
  logContent (out (stateOf (displayLogs (str "  " ++ [newline]) v)))
  = [Placeholder (str "No logs found or logs.txt is empty")].
Proof. destruct v as [? ? [] ? ? ? ? ? ?]. reflexivity. Qed.

(** * Properties of the controllers *)

(** ** Reasoning about methods *)

Section Preserves.

Variable P : viewer -> Prop.

Lemma preserves_andThen (m1 m2 : method) :
  preserves P m1 -> preserves P m2 -> preserves P (m1 ;; m2).
Proof.
  intros H1 H2 v Pv. unfold andThen. specialize (H1 v Pv).
  destruct (m1 v) as [v1|e v1]; simpl in *; [now apply H2 | assumption].
Qed.

Lemma preserves_ifElse (c : viewer -> bool) (m1 m2 : method) :
  preserves P m1 -> preserves P m2 -> preserves P (ifElse c m1 m2).
Proof. intros H1 H2 v Pv. unfold ifElse. destruct (c v); auto. Qed.

Lemma preserves_skip : preserves P skip.
Proof. intros v Pv. exact Pv. Qed.

Lemma preserves_when (c : viewer -> bool) (m : method) :
  preserves P m -> preserves P (when c m).
Proof. intros H. apply preserves_ifElse; [assumption | apply preserves_skip]. Qed.

Lemma preserves_unless (c : viewer -> bool) (m : method) :
  preserves P m -> preserves P (unless c m).
Proof. intros H. apply preserves_ifElse; [apply preserves_skip | assumption]. Qed.

Lemma preserves_throw (e : error) : preserves P (throw e).
Proof. intros v Pv. exact Pv. Qed.

Lemma preserves_tryCatchFinally (body : method) (handler : error -> method)
      (cleanup : method) :
  preserves P body -> (forall e, preserves P (handler e)) -> preserves P cleanup ->
  preserves P (tryCatchFinally body handler cleanup).
Proof.
  intros Hb Hh Hc v Pv. unfold tryCatchFinally. specialize (Hb v Pv).
  destruct (body v) as [v1|e v1]; simpl in Hb; [now apply Hc|].
  specialize (Hh e v1 Hb). destruct (handler e v1) as [v2|e' v2]; simpl in Hh.
  - now apply Hc.
  - apply (preserves_andThen cleanup (throw e')); [assumption | apply preserves_throw |].
    assumption.
Qed.

End Preserves.

(** One step through the structure of a method. *)
Ltac structure :=
  first [ apply preserves_andThen
        | apply preserves_ifElse
        | apply preserves_when
        | apply preserves_unless
        | apply preserves_skip
        | apply preserves_throw
        | apply preserves_tryCatchFinally; [| intros ? |] ].

(** ** Invariants of the page *)

Lemma andThen_assoc (m1 m2 m3 : method) (v : viewer) :
  (m1 ;; m2 ;; m3) v = ((m1 ;; m2) ;; m3) v.
Proof. unfold andThen. now destruct (m1 v). Qed.

Section Invariant.

Variable P : viewer -> Prop.

Hypothesis P_core : forall v v', core v = core v' -> P v -> P v'.
Hypothesis P_loadLogs : forall w, preserves P (loadLogs w).
Hypothesis P_logsSettle : forall w o, preserves P (dispatch w (LogsSettle o)).
Hypothesis P_stopAutoRefresh : preserves P stopAutoRefresh.
Hypothesis P_armRefresh :
  preserves P (fun v => let '(h, v') := setInterval RefreshTick 5000 v in
                        Done (set_autoRefreshInterval (Some h) v')).
Hypothesis P_clearScheduledTask : preserves P clearScheduledTask.
Hypothesis P_rearm :
  forall ms,
    preserves P (clearScheduledTask ;;
                 (fun v => let '(h, v') := setInterval ScheduleTick ms v in
                           Done (set_scheduledTask (Some h) v'))).
Hypothesis P_setScheduleBtn : forall x, preserves P (set_scheduleBtn_disabled x).
Hypothesis P_setTimeout : preserves P (act setTimeout).

(** A step that writes outside the core. *)
Ltac outside :=
  let v := fresh "v" in
  let H := fresh "H" in
  intros v H; refine (P_core _ _ _ H);
  destruct v as [[] [] [] [] ? ? ? ? ?];
  first [ reflexivity
        | match goal with |- context [if ?x then _ else _] => destruct x end;
          reflexivity ].

Ltac go :=
  repeat first [ apply P_loadLogs
               | apply P_stopAutoRefresh
               | apply P_armRefresh
               | apply P_clearScheduledTask
               | apply P_setScheduleBtn
               | apply P_setTimeout
               | structure
               | solve [outside]
               | match goal with |- preserves _ (match ?w with _ => _ end) => destruct w end ].

Lemma inv_clearLogs : preserves P clearLogs.
Proof. unfold clearLogs, setStatus, hideError. go. Qed.

Lemma inv_startBot (w : variant) : preserves P (startBot w).
Proof.
  unfold startBot, setStatus, addLogEntry. go.
Qed.

Lemma inv_startBotSettled (o : botOutcome) : preserves P (startBotSettled o).
Proof.
  unfold startBotSettled, startBotBody, startBotCatch, startBotFinally,
    setStatus, showToast, addLogEntry.
  go.
Qed.

Lemma inv_stopBot : preserves P stopBot.
Proof. unfold stopBot, addLogEntry, setStatus. go. Qed.

Lemma inv_scheduleBot (w : variant) (ms : Z) : preserves P (scheduleBot w ms).
Proof.
  unfold scheduleBot. intros v Pv. rewrite andThen_assoc. revert v Pv.
  apply preserves_andThen; [apply P_rearm|].
  apply preserves_when, inv_startBot.
Qed.

Lemma inv_enableSchedule (w : variant) : preserves P (enableSchedule w).
Proof.
  intros v Pv. unfold enableSchedule.
  destruct (millisecondsOf (intervalOf v) (scheduleUnit_value (inp v)) <? 1000)%Z;
    revert v Pv.
  - unfold showError. go.
  - intros v Pv.
    apply (preserves_andThen P (scheduleBot w _) (addLogEntry _ _));
      [apply inv_scheduleBot | unfold addLogEntry; outside | exact Pv].
Qed.

Lemma inv_disableSchedule : preserves P disableSchedule.
Proof. unfold disableSchedule, addLogEntry. go. Qed.

Lemma inv_runCallback (w : variant) (cb : callback) : preserves P (runCallback w cb).
Proof.
  destruct cb; simpl; [apply P_loadLogs|]. unfold addLogEntry. go.
Qed.

(** Every event keeps the invariant. *)
Lemma inv_dispatch (w : variant) (e : event) : preserves P (dispatch w e).
Proof.
  destruct e; try apply P_logsSettle; cbn [dispatch].
  - apply P_loadLogs.
  - apply inv_clearLogs.
  - destruct checked; go.
  - apply inv_startBot.
  - apply inv_stopBot.
  - apply preserves_andThen; [outside|].
    apply preserves_ifElse; [apply inv_enableSchedule | apply inv_disableSchedule].
  - apply preserves_andThen; [outside|].
    apply preserves_when, inv_enableSchedule.
  - apply preserves_andThen; [outside|].
    apply preserves_when, inv_enableSchedule.
  - intros v Pv. destruct (find _ _) as [t|]; [|exact Pv].
    now apply inv_runCallback.
  - intros v Pv. destruct (pendingBot (env v)) as [|n]; [exact Pv|].
    apply inv_startBotSettled. revert v Pv. outside.
  - apply P_setTimeout.
  - apply preserves_skip.
Qed.

End Invariant.

Lemma run_preserves (P : viewer -> Prop) (w : variant) :
  (forall e, preserves P (dispatch w e)) ->
  forall es v, P v -> P (run w es v).
Proof.
  intros H es. induction es as [|e es IH]; intros v Pv; [exact Pv|].
  simpl. apply IH. now apply H.
Qed.

(** Open the record and every test met on the way. *)
Ltac open_viewer v :=
  destruct v as [[] [] [] [] ? ? ? ? ?].

Ltac cases :=
  repeat match goal with
    | |- context [if ?x then _ else _] => destruct x eqn:?; cbn in *
    | |- context [match ?x with _ => _ end] => destruct x eqn:?; cbn in *
    end.

(** When the log fetch settles, whatever the outcome, the core is the one
    before with the loading flag cleared. *)
Lemma loadLogsSettled_core (w : variant) (o : logsOutcome) (v : viewer) :
  core (stateOf (loadLogsSettled w o v)) = core (set_isLoading false v).
Proof.
  open_viewer v.
  unfold loadLogsSettled, tryCatchFinally, loadLogsBody, loadLogsCatch.
  destruct o as [e'|status statusText [e'|logText]]; cbn;
    try (destruct w; reflexivity).
  - destruct (responseOk status); cbn; destruct w; reflexivity.
  - destruct (responseOk status); cbn; [|destruct w; reflexivity].
    unfold displayLogs, updateStats, andThen, ifElse, act. cbn.
    destruct (negb (truthy (trim logText))); cbn;
      destruct isBotRunning0; cbn; destruct w; cbn;
      try reflexivity; destruct (handleTruthy scheduledTask0); reflexivity.
Qed.

(** *** No [scheduleBtn] is ever defined *)

Lemma noScheduleBtn_dispatch (w : variant) (e : event) :
  preserves noScheduleBtn (dispatch w e).
Proof.
  apply inv_dispatch; unfold noScheduleBtn.
  - intros v v' E H. unfold core in E. congruence.
  - intros w' v H. open_viewer v. unfold loadLogs. cbn in *. cases; destruct w'; exact H.
  - intros w' o v H. cbn. destruct (pendingLogs (env v)) as [|n] eqn:E; [exact H|].
    pose proof (loadLogsSettled_core w' o (set_pendingLogs n v)) as C.
    unfold core in C. injection C as _ _ _ C _ _ _. rewrite C.
    open_viewer v. exact H.
  - intros v H. open_viewer v. cbn in *. unfold stopAutoRefresh, when, ifElse. cbn.
    cases; exact H.
  - intros v H. open_viewer v. exact H.
  - intros v H. open_viewer v. cbn in *. unfold clearScheduledTask, when, ifElse. cbn.
    cases; exact H.
  - intros ms v H. open_viewer v. cbn in *.
    unfold clearScheduledTask, when, ifElse, andThen. cbn.
    destruct scheduledTask0 as [[|h]|]; exact H.
  - intros x v H. unfold set_scheduleBtn_disabled. rewrite H. exact H.
  - intros v H. open_viewer v. exact H.
Qed.

Lemma noScheduleBtn_run (w : variant) (es : list event) (c : controls) (i : inputs)
      (o : display) :
  scheduleBtn (run w es (construct c i o)) = None.
Proof.
  apply (run_preserves noScheduleBtn w (noScheduleBtn_dispatch w)).
  reflexivity.
Qed.

(** ** Bot controls *)

(** C9. In every state in which the bot is already running, [startBot] (of
    either variant) returns at once: the viewer is left exactly as it was, so
    no request is issued and no control changes. *)
Theorem startBot_while_running (w : variant) (v : viewer) :
  isBotRunning v = true ->
  startBot w v = Done v
  /\ requests (env (stateOf (startBot w v))) = requests (env v)
  /\ pendingBot (env (stateOf (startBot w v))) = pendingBot (env v)
  /\ ctl (stateOf (startBot w v)) = ctl v.
Proof.
  intros R. unfold startBot, unless, ifElse. rewrite R. repeat split.
Qed.

Lemma startBot_while_running_witness :
  startBot Dashboard
    (stateOf (startBot Dashboard
                (construct idleControls (Inputs false (str "5") (str "minutes") false)
                   (Display [] 0 ([], []) [] false [] []))))
  = Done (stateOf (startBot Dashboard
                     (construct idleControls
                        (Inputs false (str "5") (str "minutes") false)
                        (Display [] 0 ([], []) [] false [] [])))).
Proof.
  exact (proj1 (startBot_while_running Dashboard
                  (stateOf (startBot Dashboard
                              (construct idleControls
                                 (Inputs false (str "5") (str "minutes") false)
                                 (Display [] 0 ([], []) [] false [] []))))
                  eq_refl)).
Defined.

Lemma startBotSettled_failure (e : error) (body : method) (v : viewer) :
  body v = Thrown e v ->
  exists v',
    tryCatchFinally body startBotCatch startBotFinally v = Done v'
    /\ isBotRunning v' = false
    /\ ctl v' = idleControls
    /\ console (out v') = (str "Error starting bot:", messageOf e) :: console (out v)
    /\ toasts (out v') = (str "Error: " ++ messageOf e, str "error") :: toasts (out v)
    /\ logContent (out v')
       = Added (str "error") (str "Error starting bot: " ++ messageOf e)
           :: logContent (out v)
    /\ status (out v') = (str "Error", str "error").
Proof.
  intros B. unfold tryCatchFinally. rewrite B.
  destruct v as [[] [] [] [] ? ? ? ? ?]. eexists. repeat split.
Qed.

Lemma startBotSettled_success (msg : jsstring) (body : method) (v : viewer) :
  body v = (showToast msg "success" ;; setStatus "Completed" "success") v ->
  exists v',
    tryCatchFinally body startBotCatch startBotFinally v = Done v'
    /\ isBotRunning v' = false
    /\ ctl v' = idleControls
    /\ toasts (out v') = (msg, str "success") :: toasts (out v)
    /\ status (out v') = (str "Completed", str "success")
    /\ console (out v') = console (out v)
    /\ logContent (out v') = logContent (out v).
Proof.
  intros B. unfold tryCatchFinally. rewrite B.
  destruct v as [[] [] [] [] ? ? ? ? ?]. eexists. repeat split.
Qed.

(** What the [try] block does with each settlement: it throws on the
    failures, and shows a success toast on the others, with the default
    message where the body carries none. *)
Lemma startBotBody_cases (o : botOutcome) (v : viewer) :
  (botFailed o = true -> exists e, startBotBody o v = Thrown e v)
  /\ (botFailed o = false ->
      exists msg,
        startBotBody o v = (showToast msg "success" ;; setStatus "Completed" "success") v
        /\ (specFailure o = true -> msg = str "PDF processing started successfully")).
Proof.
  destruct o as [e|status [e|result]]; cbn [botFailed specFailure usablePayload startBotBody].
  - split; [eauto | discriminate].
  - split; [eauto | discriminate].
  - destruct (responseOk status); cbn [negb orb].
    + destruct result as [|b|r|s|items|fields]; cbn [readProperty orDefault];
        try (split; [discriminate | intros _; eexists; split; reflexivity]).
      * split; [eauto | discriminate].
      * unfold showable, orDefault.
        destruct (lookup (str "message") fields) as [m|]; cbn [negb orb].
        -- destruct (jsonTruthy m); cbn [negb orb].
           ++ destruct (toStr m) as [text|]; split; try discriminate; eauto.
              intros _. exists text. split; [reflexivity | discriminate].
           ++ split; [discriminate|]. intros _. eexists. split; [reflexivity | discriminate].
        -- split; [discriminate|]. intros _. eexists. split; reflexivity.
    + split; [|discriminate]. intros _.
      destruct (readProperty result "error") as [e|m]; [eauto|].
      destruct (orDefault m "Failed to start bot"); eauto.
Qed.

(** C5, amended.  However the trigger of the dashboard's [startBot] settles,
    the continuation returns without an exception and leaves the bot idle:
    the running flag is cleared, start is enabled, stop disabled and the
    three schedule controls enabled.  A failed fetch, a status outside 2xx,
    a 2xx body that is not JSON or is null, and a 2xx message that cannot be
    converted to a string are failures: the error is written to the console,
    shown as an error toast, added to the log as an error entry, and the
    status is Error.  Every other 2xx body is a success, shown as a success
    toast with nothing logged; among them are the bodies that carry no
    message, which the specification counts as failures: they show the
    default message. *)
Theorem startBot_settles_idle (o : botOutcome) (v : viewer) :
  exists v',
    startBotSettled o v = Done v'
    /\ isBotRunning v' = false
    /\ ctl v' = idleControls
    /\ (botFailed o = true ->
        exists e,
          console (out v') = (str "Error starting bot:", messageOf e) :: console (out v)
          /\ toasts (out v') = (str "Error: " ++ messageOf e, str "error") :: toasts (out v)
          /\ logContent (out v')
             = Added (str "error") (str "Error starting bot: " ++ messageOf e)
                 :: logContent (out v)
          /\ status (out v') = (str "Error", str "error"))
    /\ (botFailed o = false ->
        exists msg,
          toasts (out v') = (msg, str "success") :: toasts (out v)
          /\ status (out v') = (str "Completed", str "success")
          /\ console (out v') = console (out v)
          /\ logContent (out v') = logContent (out v)
          /\ (specFailure o = true -> msg = str "PDF processing started successfully")).
Proof.
  destruct (startBotBody_cases o v) as [F S]. unfold startBotSettled.
  destruct (botFailed o).
  - destruct (F eq_refl) as [e B].
    destruct (startBotSettled_failure e _ v B) as [v' [E [R [C H]]]].
    exists v'. split; [exact E|]. split; [exact R|]. split; [exact C|].
    split; [|discriminate]. intros _. exists e. exact H.
  - destruct (S eq_refl) as [msg [B D]].
    destruct (startBotSettled_success msg _ v B) as [v' [E [R [C [T [St [Co L]]]]]]].
    exists v'. split; [exact E|]. split; [exact R|]. split; [exact C|].
    split; [discriminate|]. intros _. exists msg. auto.
Qed.

Lemma startBot_settles_idle_witness :
  exists v' e,
    startBotSettled
      (BotResponse 200
         (Json (JObject [(str "message", JObject [(str "toString", JNumber (str "1"))])])))
      (stateOf (startBot Dashboard
                  (construct idleControls (Inputs false (str "5") (str "minutes") false)
                     (Display [] 0 ([], []) [] false [] []))))
    = Done v'
    /\ isBotRunning v' = false
    /\ ctl v' = idleControls
    /\ toasts (out v') = [(str "Error: " ++ messageOf e, str "error")]
    /\ status (out v') = (str "Error", str "error").
Proof.
  destruct (startBot_settles_idle
              (BotResponse 200
                 (Json (JObject [(str "message",
                                   JObject [(str "toString", JNumber (str "1"))])])))
              (stateOf (startBot Dashboard
                          (construct idleControls
                             (Inputs false (str "5") (str "minutes") false)
                             (Display [] 0 ([], []) [] false [] [])))))
    as [v' [H1 [H2 [H3 [H4 _]]]]].
  destruct (H4 eq_refl) as [e [_ [Ht [_ Hs]]]].
  exists v', e. repeat split; assumption.
Defined.

(** C5, as stated, fails on a 2xx response whose body is JSON and carries no
    message, the empty object for one: the specification counts it as a
    failure, and the code shows the default message in a success toast,
    sets the status to Completed, and logs and reports nothing. *)
Lemma startBot_settles_idle_counterexample :
  specFailure (BotResponse 200 (Json (JObject []))) = true
  /\ startBotSettled (BotResponse 200 (Json (JObject [])))
       (stateOf (startBot Dashboard
                   (construct idleControls (Inputs false (str "5") (str "minutes") false)
                      (Display [] 0 ([], []) [] false [] []))))
     = Done (Viewer idleControls (Inputs false (str "5") (str "minutes") false)
               (Display [] 0 (str "Completed", str "success") [] false
                  [(str "PDF processing started successfully", str "success")] [])
               (Browser [] 2 [processUrl] 0 1) None false false None None).
Proof. split; reflexivity. Qed.

(** [stopBot] on a running bot writes the five controls, then throws at
    [this.scheduleBtn.disabled = false]: the schedule is not cleared, no
    entry is logged and the status is not set. *)
Lemma stopBot_running (v : viewer) :
  isBotRunning v = true -> scheduleBtn v = None ->
  stopBot v
  = Thrown (TypeError (str "Cannot set properties of undefined (setting 'disabled')"))
      (set_scheduleUnit_disabled false
         (set_scheduleInterval_disabled false
            (set_scheduleEnabled_disabled false
               (set_stopBotBtn_disabled true
                  (set_startBotBtn_disabled false (set_isBotRunning false v)))))).
Proof.
  intros R N. open_viewer v. cbn in R, N. subst. reflexivity.
Qed.

(** On any page, however it got there, [stopBot] cannot return while the bot
    runs. *)
Lemma stopBot_never_returns (w : variant) (es : list event) (c : controls) (i : inputs)
      (o : display) :
  isBotRunning (run w es (construct c i o)) = true ->
  exists e v',
    stopBot (run w es (construct c i o)) = Thrown e v'
    /\ scheduledTask v' = scheduledTask (run w es (construct c i o))
    /\ timers (env v') = timers (env (run w es (construct c i o)))
    /\ out v' = out (run w es (construct c i o)).
Proof.
  intros R. rewrite (stopBot_running _ R (noScheduleBtn_run w es c i o)).
  do 2 eexists. split; [reflexivity|].
  destruct (run w es (construct c i o)) as [[] [] [] [] ? ? ? ? ?]. repeat split.
Qed.

Lemma stopBot_never_returns_witness :
  exists e v',
    stopBot (run Dashboard [ClickStart]
               (construct idleControls (Inputs false (str "5") (str "minutes") false)
                  (Display [] 0 ([], []) [] false [] [])))
    = Thrown e v'
    /\ scheduledTask v' = None
    /\ timers (env v') = []
    /\ out v' = Display [] 0 (str "Running", str "info") [] false [] [].
Proof.
  exact (stopBot_never_returns Dashboard [ClickStart] idleControls
           (Inputs false (str "5") (str "minutes") false)
           (Display [] 0 ([], []) [] false [] []) eq_refl).
Defined.

(** C2 fails on the code.  Press start, then stop while the trigger is
    pending: the bot is running, [stopBot] restores the five control flags
    and then throws a TypeError, because [scheduleBtn] is not a property of
    the viewer; the status still reads Running and no entry is logged. *)
Theorem stopBot_while_running_throws (c : controls) (i : inputs) (o : display) :
  isBotRunning (stateOf (startBot Dashboard (construct c i o))) = true
  /\ exists v',
      stopBot (stateOf (startBot Dashboard (construct c i o)))
      = Thrown (TypeError (str "Cannot set properties of undefined (setting 'disabled')")) v'
      /\ isBotRunning v' = false
      /\ ctl v' = idleControls
      /\ status (out v') = (str "Running", str "info")
      /\ logContent (out v') = logContent o.
Proof.
  destruct c, i, o. split; [reflexivity|]. eexists. repeat split.
Qed.

(** In script.js [startBot] itself writes [scheduleBtn]: it throws after it
    has raised the running flag and disabled the controls, so the page stays
    in the running state, with nothing logged and no auto-refresh started. *)
Lemma script_startBot_throws (c : controls) (i : inputs) (o : display) :
  exists v',
    startBot Script (construct c i o)
    = Thrown (TypeError (str "Cannot set properties of undefined (setting 'disabled')")) v'
    /\ isBotRunning v' = true
    /\ ctl v' = Controls true false true true true
    /\ out v' = o
    /\ env v' = env (construct c i o).
Proof. destruct c, i, o. eexists. repeat split. Qed.

(** ** Schedule controls *)

(** The floor, as the code applies it: whenever the interval computed from
    the two inputs is below 1000 ms, an error is shown, the toggle is
    unchecked and nothing else changes; in particular no timer is created
    and no request is issued. *)
Lemma enableSchedule_below_floor (w : variant) (v : viewer) :
  (millisecondsOf (intervalOf v) (scheduleUnit_value (inp v)) < 1000)%Z ->
  enableSchedule w v
  = Done (set_scheduleEnabled_checked false
            (set_errorMessage_shown true
               (set_errorMessage_text (str "Interval must be at least 1 second") v)))
  /\ env (stateOf (enableSchedule w v)) = env v
  /\ scheduledTask (stateOf (enableSchedule w v)) = scheduledTask v.
Proof.
  intros L. apply Z.ltb_lt in L. unfold enableSchedule. rewrite L.
  open_viewer v. repeat split.
Qed.

Lemma enableSchedule_below_floor_witness :
  enableSchedule Dashboard
    (construct idleControls (Inputs true (str "-1") (str "seconds") false)
       (Display [] 0 ([], []) [] false [] []))
  = Done (construct idleControls (Inputs false (str "-1") (str "seconds") false)
            (Display [] 0 ([], []) (str "Interval must be at least 1 second") true [] [])).
Proof.
  exact (proj1 (enableSchedule_below_floor Dashboard
                  (construct idleControls (Inputs true (str "-1") (str "seconds") false)
                     (Display [] 0 ([], []) [] false [] []))
                  eq_refl)).
Defined.

(** One hour is accepted, with a period of exactly 3,600,000 ms. *)
Lemma enableSchedule_one_hour (w : variant) (c : controls) (o : display)
      (checked auto : bool) :
  millisecondsOf (intervalOf (construct c (Inputs checked (str "1") (str "hours") auto) o))
    (str "hours") = 3600000%Z
  /\ timers (env (stateOf (enableSchedule w
                             (construct c (Inputs checked (str "1") (str "hours") auto) o))))
     = [Timer 1 ScheduleTick 3600000]
  /\ scheduledTask (stateOf (enableSchedule w
                               (construct c (Inputs checked (str "1") (str "hours") auto) o)))
     = Some 1.
Proof. destruct w, c, o; repeat split. Qed.

(** An interval that does not parse, or is absent, counts as 5. *)
Lemma intervalOf_default (v : viewer) :
  parseInt (scheduleInterval_value (inp v)) = None -> intervalOf v = 5%Z.
Proof. unfold intervalOf. now intros ->. Qed.

Lemma parseInt_examples :
  parseInt [] = None /\ parseInt (str "abc") = None /\ parseInt (str " 12px") = Some 12%Z
  /\ parseInt (str "-3") = Some (-3)%Z /\ parseInt (str "0") = Some 0%Z
  /\ parseInt (str "0x1f") = Some 31%Z /\ parseInt (str "1.5") = Some 1%Z.
Proof. repeat split; reflexivity. Qed.

(** C1 fails on the code at an interval of 0 seconds.  [parseInt] gives 0,
    which [|| 5] replaces by 5 as if nothing had been typed: the interval is
    5000 ms, above the floor, and the schedule is accepted: a timer of 5000
    ms is created, no error is shown and the toggle keeps its state. *)
Theorem enableSchedule_zero_seconds_accepted (w : variant) (c : controls) (o : display)
        (checked auto : bool) :
  parseInt (str "0") = Some 0%Z
  /\ intervalOf (construct c (Inputs checked (str "0") (str "seconds") auto) o) = 5%Z
  /\ timers (env (stateOf (enableSchedule w
                             (construct c (Inputs checked (str "0") (str "seconds") auto) o))))
     = [Timer 1 ScheduleTick 5000]
  /\ scheduledTask (stateOf (enableSchedule w
                               (construct c (Inputs checked (str "0") (str "seconds") auto) o)))
     = Some 1
  /\ errorMessage_shown (out (stateOf (enableSchedule w
                             (construct c (Inputs checked (str "0") (str "seconds") auto) o))))
     = errorMessage_shown o
  /\ scheduleEnabled_checked (inp (stateOf (enableSchedule w
                             (construct c (Inputs checked (str "0") (str "seconds") auto) o))))
     = checked.
Proof. destruct w, c, o; repeat split. Qed.

(** ** One log fetch at a time *)

Lemma loadInv_dispatch (w : variant) (e : event) : preserves loadInv (dispatch w e).
Proof.
  apply inv_dispatch; unfold loadInv.
  - intros v v' E H. unfold core in E. injection E as E1 _ _ _ _ _ E7.
    now rewrite <- E1, <- E7.
  - intros w' v H. unfold loadLogs. destruct (isLoading v) eqn:L; cbn.
    + now rewrite L.
    + open_viewer v. cbn in *. subst. now destruct w'.
  - intros w' o v H. cbn. destruct (pendingLogs (env v)) as [|n] eqn:E; cbn.
    + now rewrite E.
    + pose proof (loadLogsSettled_core w' o (set_pendingLogs n v)) as C.
      unfold core in C. injection C as C1 _ _ _ _ _ C7. rewrite C1, C7.
      open_viewer v. cbn in *. destruct isLoading0; [lia | discriminate].
  - intros v H. open_viewer v. cbn in *. unfold stopAutoRefresh, when, ifElse. cbn.
    destruct autoRefreshInterval0 as [[|h]|]; exact H.
  - intros v H. open_viewer v. exact H.
  - intros v H. open_viewer v. cbn in *. unfold clearScheduledTask, when, ifElse. cbn.
    destruct scheduledTask0 as [[|h]|]; exact H.
  - intros ms v H. open_viewer v. cbn in *.
    unfold clearScheduledTask, when, ifElse, andThen. cbn.
    destruct scheduledTask0 as [[|h]|]; exact H.
  - intros x v H. unfold set_scheduleBtn_disabled. destruct (scheduleBtn v) eqn:B.
    + open_viewer v. exact H.
    + exact H.
  - intros v H. open_viewer v. exact H.
Qed.

Lemma loadInv_run (w : variant) (es : list event) (c : controls) (i : inputs)
      (o : display) :
  loadInv (run w es (construct c i o)).
Proof. apply (run_preserves loadInv w (loadInv_dispatch w)). reflexivity. Qed.

Lemma isLoading_set_isLoading (b : bool) (v : viewer) :
  isLoading (set_isLoading b v) = b.
Proof. now destruct v. Qed.

Lemma loadLogs_idle (w : variant) (v : viewer) :
  isLoading v = false ->
  exists v',
    loadLogs w v = Done v'
    /\ isLoading v' = true
    /\ requests (env v') = logsUrl w :: requests (env v)
    /\ pendingLogs (env v') = S (pendingLogs (env v)).
Proof.
  intros L. unfold loadLogs. rewrite L. open_viewer v.
  destruct w; eexists; repeat split.
Qed.

(** C4. On every page reached by any sequence of events, at most one log
    fetch is in flight.  A [loadLogs] call made while one is pending returns
    at once with the viewer unchanged, so of two calls made back to back the
    second does nothing, and from an idle viewer the two together issue
    exactly one request.  Whenever the fetch settles, with whatever outcome,
    the loading flag is cleared. *)
Theorem loadLogs_single_flight (w : variant) (es : list event) (c : controls)
        (i : inputs) (o : display) :
  pendingLogs (env (run w es (construct c i o))) <= 1
  /\ (pendingLogs (env (run w es (construct c i o))) = 1 ->
      loadLogs w (run w es (construct c i o)) = Done (run w es (construct c i o)))
  /\ loadLogs w (stateOf (loadLogs w (run w es (construct c i o))))
     = Done (stateOf (loadLogs w (run w es (construct c i o))))
  /\ (pendingLogs (env (run w es (construct c i o))) = 0 ->
      requests (env (stateOf ((loadLogs w ;; loadLogs w) (run w es (construct c i o)))))
      = logsUrl w :: requests (env (run w es (construct c i o)))
      /\ pendingLogs (env (stateOf ((loadLogs w ;; loadLogs w)
                                      (run w es (construct c i o))))) = 1)
  /\ (forall s,
         isLoading (stateOf (dispatch w (LogsSettle s) (run w es (construct c i o)))) = false
         /\ pendingLogs (env (stateOf (dispatch w (LogsSettle s)
                                         (run w es (construct c i o))))) = 0)
  /\ (forall s v, isLoading (stateOf (loadLogsSettled w s v)) = false).
Proof.
  pose proof (loadInv_run w es c i o) as I.
  set (v := run w es (construct c i o)) in *. unfold loadInv in I.
  assert (forall u, isLoading u = true -> loadLogs w u = Done u) as Busy.
  { intros u L. unfold loadLogs. now rewrite L. }
  split; [destruct (isLoading v); lia|].
  split; [intros E; apply Busy; destruct (isLoading v); [reflexivity|lia]|].
  split.
  { destruct (isLoading v) eqn:L.
    - rewrite (Busy v L). cbn. now apply Busy.
    - destruct (loadLogs_idle w v L) as [v' [E [L' _]]]. rewrite E. now apply Busy. }
  split.
  { intros E. assert (isLoading v = false) as L
        by (destruct (isLoading v); [lia | reflexivity]).
    destruct (loadLogs_idle w v L) as [v' [E' [L' [R N]]]].
    unfold andThen. rewrite E', (Busy v' L'). cbn. split; [exact R | lia]. }
  split.
  - intros s. pose proof (loadInv_dispatch w (LogsSettle s) v I) as I'.
    unfold loadInv in I'. cbn in *.
    destruct (pendingLogs (env v)) as [|n] eqn:E.
    + cbn. destruct (isLoading v); [discriminate|]. now split.
    + pose proof (loadLogsSettled_core w s (set_pendingLogs n v)) as C.
      unfold core in C. injection C as C1 _ _ _ _ _ C7.
      rewrite C1, isLoading_set_isLoading in *. now split.
  - intros s u. pose proof (loadLogsSettled_core w s u) as C.
    unfold core in C. injection C as C1 _ _ _ _ _ _. rewrite C1.
    apply isLoading_set_isLoading.
Qed.

Lemma loadLogs_single_flight_witness :
  requests (env (stateOf ((loadLogs Dashboard ;; loadLogs Dashboard)
                            (run Dashboard []
                               (construct idleControls
                                  (Inputs false (str "5") (str "minutes") false)
                                  (Display [] 0 ([], []) [] false [] []))))))
  = [logsUrl Dashboard].
Proof.
  exact (proj1 (proj1 (proj2 (proj2 (proj2
           (loadLogs_single_flight Dashboard [] idleControls
              (Inputs false (str "5") (str "minutes") false)
              (Display [] 0 ([], []) [] false [] []))))) eq_refl)).
Defined.

(** ** One schedule timer at a time *)

Lemma NoDup_map_filter {A B : Type} (g : A -> B) (f : A -> bool) (l : list A) :
  NoDup (map g l) -> NoDup (map g (filter f l)).
Proof.
  induction l as [|a l IH]; simpl; intros H; [constructor|].
  inversion H as [|x xs N D]; subst. destruct (f a); simpl; [|now apply IH].
  constructor; [|now apply IH].
  intros I. apply N. apply in_map_iff in I as [x [E I]].
  apply filter_In in I as [I _]. apply in_map_iff. now exists x.
Qed.

Lemma timersOk_filter (f : timer -> bool) (ts : list timer) (next : handle)
      (task : option handle) :
  timersOk ts next task -> timersOk (filter f ts) next task.
Proof.
  intros [N [B [D S]]]. repeat split.
  - exact N.
  - apply Forall_forall. intros t I. apply filter_In in I as [I _].
    rewrite Forall_forall in B. now apply B.
  - now apply NoDup_map_filter.
  - intros t I. apply filter_In in I as [I _]. now apply S.
Qed.

(** After [clearInterval] of the handle held, no schedule timer is left. *)
Lemma timersOk_cleared (ts : list timer) (next h : handle) :
  timersOk ts next (Some h) ->
  forall t, In t (filter (fun t => negb (timerId t =? h)) ts) -> isSchedule t = false.
Proof.
  intros [_ [_ [_ S]]] t I. apply filter_In in I as [I F].
  destruct (isSchedule t) eqn:E; [|reflexivity].
  specialize (S t I E). injection S as ->. now rewrite Nat.eqb_refl in F.
Qed.

(** With a handle that is not truthy, no schedule timer is alive. *)
Lemma timersOk_unarmed (ts : list timer) (next : handle) (task : option handle) :
  timersOk ts next task -> handleTruthy task = false ->
  forall t, In t ts -> isSchedule t = false.
Proof.
  intros [_ [B [_ S]]] F t I. destruct (isSchedule t) eqn:E; [|reflexivity].
  specialize (S t I E). subst. rewrite Forall_forall in B. specialize (B t I).
  simpl in F. apply negb_false_iff, Nat.eqb_eq in F. lia.
Qed.

Lemma timersOk_retask (ts : list timer) (next : handle) (task task' : option handle) :
  timersOk ts next task -> (forall t, In t ts -> isSchedule t = false) ->
  timersOk ts next task'.
Proof.
  intros [N [B [D _]]] F. repeat split; try assumption.
  intros t I E. rewrite (F t I) in E. discriminate.
Qed.

Lemma timersOk_fresh (ts : list timer) (next : handle) :
  Forall (fun t => 1 <= timerId t /\ timerId t < next) ts ->
  ~ In next (map timerId ts)
  /\ Forall (fun t => 1 <= timerId t /\ timerId t < S next) ts.
Proof.
  intros B. rewrite Forall_forall in B. split.
  - intros I. apply in_map_iff in I as [t [E I]]. specialize (B t I). lia.
  - apply Forall_forall. intros t I. specialize (B t I). lia.
Qed.

Lemma timersOk_add_refresh (ts : list timer) (next : handle) (task : option handle)
      (delay : Z) :
  timersOk ts next task -> timersOk (Timer next RefreshTick delay :: ts) (S next) task.
Proof.
  intros [N [B [D S]]]. destruct (timersOk_fresh ts next B) as [F B'].
  repeat split.
  - lia.
  - constructor; [simpl; lia | exact B'].
  - simpl. now constructor.
  - intros t [<-|I] E; [discriminate | now apply S].
Qed.

Lemma timersOk_add_schedule (ts : list timer) (next : handle) (task : option handle)
      (delay : Z) :
  timersOk ts next task -> (forall t, In t ts -> isSchedule t = false) ->
  timersOk (Timer next ScheduleTick delay :: ts) (S next) (Some next).
Proof.
  intros [N [B [D _]]] F. destruct (timersOk_fresh ts next B) as [Fr B'].
  repeat split.
  - lia.
  - constructor; [simpl; lia | exact B'].
  - simpl. now constructor.
  - intros t [<-|I] E; [reflexivity|]. rewrite (F t I) in E. discriminate.
Qed.

Lemma timersOk_bump (ts : list timer) (next : handle) (task : option handle) :
  timersOk ts next task -> timersOk ts (S next) task.
Proof.
  intros [N [B [D S]]]. destruct (timersOk_fresh ts next B) as [_ B'].
  repeat split; try assumption. lia.
Qed.

Lemma timersOk_count (ts : list timer) (next : handle) (task : option handle) :
  timersOk ts next task -> List.length (filter isSchedule ts) <= 1.
Proof.
  intros [_ [_ [D S]]].
  apply (NoDup_map_filter timerId isSchedule) in D.
  assert (forall t, In t (filter isSchedule ts) -> task = Some (timerId t)) as S'.
  { intros t I. apply filter_In in I as [I E]. now apply S. }
  destruct (filter isSchedule ts) as [|a [|b l]]; simpl; try lia.
  exfalso. simpl in D. inversion D as [|x xs N _]; subst. apply N. left.
  assert (Some (timerId a) = Some (timerId b)) as E.
  { rewrite <- (S' a), <- (S' b); [reflexivity | right; now left | now left]. }
  now injection E.
Qed.

(** What [clearScheduledTask] does, in one piece. *)
Lemma clearScheduledTask_unfold (v : viewer) :
  clearScheduledTask v
  = Done (match scheduledTask v with
          | Some h => if negb (h =? 0) then set_scheduledTask None (clearInterval h v)
                      else v
          | None => v
          end).
Proof.
  unfold clearScheduledTask, when, ifElse, skip.
  destruct (scheduledTask v) as [h|]; cbn; [|reflexivity].
  now destruct (negb (h =? 0)).
Qed.

(** Cancelling keeps the invariant and leaves no schedule timer; it touches
    the timers and the handle only. *)
Lemma clearScheduledTask_clears (v : viewer) :
  timerInv v ->
  exists v',
    clearScheduledTask v = Done v'
    /\ timerInv v'
    /\ scheduleTimers v' = []
    /\ (forall t, In t (timers (env v')) -> In t (timers (env v)) /\ isSchedule t = false)
    /\ nextHandle (env v') = nextHandle (env v)
    /\ isBotRunning v' = isBotRunning v
    /\ requests (env v') = requests (env v)
    /\ pendingBot (env v') = pendingBot (env v)
    /\ ctl v' = ctl v /\ inp v' = inp v /\ out v' = out v.
Proof.
  intros I. rewrite clearScheduledTask_unfold. eexists. split; [reflexivity|].
  assert (forall l : list timer, (forall t, In t l -> isSchedule t = false) ->
                                 filter isSchedule l = []) as Empty.
  { intros l F. destruct (filter isSchedule l) as [|t l'] eqn:E; [reflexivity|].
    assert (In t (filter isSchedule l)) as J by (rewrite E; now left).
    apply filter_In in J as [J S]. rewrite (F t J) in S. discriminate. }
  unfold scheduleTimers.
  unfold timerInv in *.
  destruct (scheduledTask v) as [h|] eqn:T.
  - destruct (negb (h =? 0)) eqn:Z.
    + pose proof (timersOk_cleared _ _ h I) as C.
      pose proof (timersOk_filter (fun t => negb (timerId t =? h)) _ _ _ I) as I'.
      apply (timersOk_retask _ _ _ None) in I'; [|exact C].
      destruct v as [[] [] [] [] ? ? ? ? ?]. cbn in *.
      split; [exact I'|]. split; [apply Empty; exact C|].
      split; [|repeat split].
      intros t H. split; [now apply filter_In in H | now apply C].
    + assert (forall t, In t (timers (env v)) -> isSchedule t = false) as F.
      { apply (timersOk_unarmed _ _ _ I). simpl. now rewrite Z. }
      rewrite T. split; [exact I|]. split; [now apply Empty|].
      split; [|repeat split].
      intros t H. split; [exact H | now apply F].
  - assert (forall t, In t (timers (env v)) -> isSchedule t = false) as F.
    { now apply (timersOk_unarmed _ _ _ I). }
    rewrite T. split; [exact I|]. split; [now apply Empty|].
    split; [|repeat split].
    intros t H. split; [exact H | now apply F].
Qed.

Lemma timerInv_dispatch (w : variant) (e : event) : preserves timerInv (dispatch w e).
Proof.
  apply inv_dispatch; unfold timerInv.
  - intros v v' E H. unfold core in E. injection E as _ E2 _ _ E5 E6 _.
    now rewrite <- E2, <- E5, <- E6.
  - intros w' v H. unfold loadLogs. destruct (isLoading v); [exact H|].
    open_viewer v. destruct w'; exact H.
  - intros w' o v H. cbn. destruct (pendingLogs (env v)) as [|n] eqn:E; [exact H|].
    pose proof (loadLogsSettled_core w' o (set_pendingLogs n v)) as C.
    unfold core in C. injection C as _ C2 _ _ C5 C6 _. rewrite C2, C5, C6.
    open_viewer v. exact H.
  - intros v H. unfold stopAutoRefresh, when, ifElse, skip.
    destruct (handleTruthy (autoRefreshInterval v)); [|exact H].
    destruct (autoRefreshInterval v) as [h|]; [|exact H].
    open_viewer v. cbn in *. now apply timersOk_filter.
  - intros v H. open_viewer v. cbn in *. now apply timersOk_add_refresh.
  - intros v H. destruct (clearScheduledTask_clears v H) as [v' [E [I _]]].
    rewrite E. exact I.
  - intros ms v H.
    destruct (clearScheduledTask_clears v H) as [v' [E [I [_ [F _]]]]].
    unfold andThen. rewrite E. open_viewer v'. cbn in *.
    apply (timersOk_add_schedule _ _ _ _ I). intros t J. now apply (F t J).
  - intros x v H. unfold set_scheduleBtn_disabled. destruct (scheduleBtn v).
    + open_viewer v. exact H.
    + exact H.
  - intros v H. open_viewer v. cbn in *. now apply timersOk_bump.
Qed.

Lemma timerInv_run (w : variant) (es : list event) (c : controls) (i : inputs)
      (o : display) :
  timerInv (run w es (construct c i o)).
Proof.
  apply (run_preserves timerInv w (timerInv_dispatch w)).
  repeat split; try constructor. intros t [].
Qed.

Lemma dispatch_reapplies (w : variant) (e : event) (v : viewer) :
  reapplies e v = true -> dispatch w e v = enableSchedule w (written e v).
Proof.
  destruct e; try discriminate; cbn [reapplies written dispatch]; intros R.
  - subst. unfold andThen, act, handleScheduleToggle, ifElse. now destruct v as [? [] ? ? ? ? ? ? ?].
  - unfold andThen, act, updateScheduleIfEnabled, when, ifElse.
    destruct v as [? [] ? ? ? ? ? ? ?]. cbn in *. now rewrite R.
  - unfold andThen, act, updateScheduleIfEnabled, when, ifElse.
    destruct v as [? [] ? ? ? ? ? ? ?]. cbn in *. now rewrite R.
Qed.

Lemma timerInv_written (e : event) (v : viewer) : timerInv v -> timerInv (written e v).
Proof. intros H. destruct e; try exact H; open_viewer v; exact H. Qed.

(** An accepted schedule: the old timer is cancelled, one new timer of the
    requested period is created, and a bot run is triggered unless one is
    under way. *)
Lemma enableSchedule_rearms (v : viewer) :
  timerInv v -> (1000 <= requested v)%Z ->
  exists v',
    enableSchedule Dashboard v = Done v'
    /\ scheduleTimers v' = [Timer (nextHandle (env v)) ScheduleTick (requested v)]
    /\ scheduledTask v' = Some (nextHandle (env v))
    /\ (forall t, In t (scheduleTimers v) -> ~ In t (timers (env v')))
    /\ (isBotRunning v = false ->
        isBotRunning v' = true
        /\ requests (env v') = processUrl :: requests (env v)
        /\ pendingBot (env v') = S (pendingBot (env v)))
    /\ (isBotRunning v = true ->
        requests (env v') = requests (env v) /\ pendingBot (env v') = pendingBot (env v)).
Proof.
  intros I A. unfold requested in *. unfold enableSchedule.
  apply Z.ltb_ge in A. rewrite A. clear A.
  generalize (millisecondsOf (intervalOf v) (scheduleUnit_value (inp v))). intros ms.
  generalize (str "Bot scheduled to run every " ++ showZ (intervalOf v) ++ str " "
                  ++ scheduleUnit_value (inp v)). intros msg.
  destruct (clearScheduledTask_clears v I)
    as [v1 [E [I1 [S1 [F [N [R [Q [PB _]]]]]]]]].
  unfold scheduleBot, andThen. rewrite E.
  assert (forall t, In t (scheduleTimers v) -> ~ In t (timers (env v1))
                                               /\ timerId t <> nextHandle (env v)) as Old.
  { intros t J. apply filter_In in J as [J S]. split.
    - intros K. destruct (F t K) as [_ S']. congruence.
    - destruct I as [_ [B _]]. rewrite Forall_forall in B. specialize (B t J). lia. }
  unfold scheduleTimers in S1.
  destruct v1 as [[] [] [] [] ? ? ? ? ?]. cbn in *. subst.
  unfold when, ifElse, skip. cbn.
  destruct (isBotRunning v); cbn; eexists; (split; [reflexivity|]); cbn;
    unfold scheduleTimers; cbn; rewrite S1; repeat split; try discriminate;
    intros t J [K|K]; destruct (Old t J) as [O1 O2];
    solve [ apply O1, K | apply O2; now rewrite <- K ].
Qed.

(** C6. On every page reached by any sequence of events, at most one
    schedule timer is alive, and cancelling leaves none.  Checking the
    toggle, or editing the interval or the unit while it is checked, with an
    interval that is accepted, cancels the timer that was alive, leaves
    exactly one timer, of the new period, and triggers one bot run unless a
    run is under way. *)
Theorem single_schedule_timer (es : list event) (c : controls) (i : inputs)
        (o : display) :
  (forall w, List.length (scheduleTimers (run w es (construct c i o))) <= 1)
  /\ scheduleTimers (stateOf (clearScheduledTask (run Dashboard es (construct c i o)))) = []
  /\ forall e,
      reapplies e (run Dashboard es (construct c i o)) = true ->
      (1000 <= requested (written e (run Dashboard es (construct c i o))))%Z ->
      exists v',
        dispatch Dashboard e (run Dashboard es (construct c i o)) = Done v'
        /\ scheduleTimers v'
           = [Timer (nextHandle (env (run Dashboard es (construct c i o)))) ScheduleTick
                (requested (written e (run Dashboard es (construct c i o))))]
        /\ (forall t, In t (scheduleTimers (run Dashboard es (construct c i o))) ->
                      ~ In t (timers (env v')))
        /\ (isBotRunning (run Dashboard es (construct c i o)) = false ->
            isBotRunning v' = true
            /\ fetched processUrl v'
               = S (fetched processUrl (run Dashboard es (construct c i o))))
        /\ (isBotRunning (run Dashboard es (construct c i o)) = true ->
            fetched processUrl v' = fetched processUrl (run Dashboard es (construct c i o))).
Proof.
  split; [|split].
  - intros w. apply (timersOk_count _ _ _ (timerInv_run w es c i o)).
  - destruct (clearScheduledTask_clears _ (timerInv_run Dashboard es c i o))
      as [v1 [E [_ [S _]]]].
    now rewrite E.
  - intros e R A. pose proof (timerInv_run Dashboard es c i o) as I.
    set (v := run Dashboard es (construct c i o)) in *.
    rewrite (dispatch_reapplies Dashboard e v R).
    destruct (enableSchedule_rearms (written e v) (timerInv_written e v I) A)
      as [v' [E [S [_ [Old [Idle Busy]]]]]].
    assert (env (written e v) = env v /\ isBotRunning (written e v) = isBotRunning v) as [Ev Rv].
    { destruct e; try (now split); now destruct v as [? [] ? ? ? ? ? ? ?]. }
    assert (scheduleTimers (written e v) = scheduleTimers v) as Sv
        by (unfold scheduleTimers; now rewrite Ev).
    exists v'. rewrite Ev, Rv, Sv in *.
    split; [exact E|]. split; [exact S|]. split; [exact Old|]. split.
    + intros N. destruct (Idle N) as [Rn [Rq _]]. split; [exact Rn|].
      unfold fetched. rewrite Rq. cbn [filter].
      assert (jsEqb processUrl processUrl = true) as -> by reflexivity. reflexivity.
    + intros N. destruct (Busy N) as [Rq _]. unfold fetched. now rewrite Rq.
Qed.

Lemma single_schedule_timer_witness :
  exists v',
    dispatch Dashboard (ChangeScheduleUnit (str "hours"))
      (run Dashboard [ChangeScheduleEnabled true]
         (construct idleControls (Inputs false (str "5") (str "minutes") false)
            (Display [] 0 ([], []) [] false [] [])))
    = Done v'
    /\ scheduleTimers v' = [Timer 2 ScheduleTick 18000000]
    /\ ~ In (Timer 1 ScheduleTick 300000) (timers (env v'))
    /\ fetched processUrl v' = 1.
Proof.
  destruct (proj2 (proj2 (single_schedule_timer [ChangeScheduleEnabled true] idleControls
                            (Inputs false (str "5") (str "minutes") false)
                            (Display [] 0 ([], []) [] false [] [])))
              (ChangeScheduleUnit (str "hours")) eq_refl)
    as [v' [E [S [Old [_ Busy]]]]].
  { vm_compute. discriminate. }
  exists v'. split; [exact E|].
  split; [vm_compute in S; exact S|].
  split; [apply Old; vm_compute; now left|].
  specialize (Busy eq_refl). vm_compute in Busy. vm_compute. exact Busy.
Defined.

(** * Further properties of the code *)

(** ** escapeHtml *)

Lemma escapeChar_class (c : ascii) :
  (c = "&"%char /\ escapeChar c = str "&amp;")
  \/ (c = ascii_of_nat 160 /\ escapeChar c = str "&nbsp;")
  \/ (c = "<"%char /\ escapeChar c = str "&lt;")
  \/ (c = ">"%char /\ escapeChar c = str "&gt;")
  \/ (escapeChar c = [c] /\ c <> "&"%char /\ c <> "<"%char /\ c <> ">"%char
      /\ c <> ascii_of_nat 160).
Proof.
  unfold escapeChar.
  destruct (Ascii.eqb_spec c "&"%char) as [->|N1]; [now left|].
  destruct (Nat.eqb_spec (code c) 160) as [E|N2].
  { right; left. split; [|reflexivity]. apply code_inj. now rewrite E. }
  destruct (Ascii.eqb_spec c "<"%char) as [->|N3]; [right; right; now left|].
  destruct (Ascii.eqb_spec c ">"%char) as [->|N4]; [right; right; right; now left|].
  right; right; right; right. repeat split; try assumption.
  intros ->. now apply N2.
Qed.

Lemma escapeHtml_cons (c : ascii) (s : jsstring) :
  escapeHtml (c :: s) = escapeChar c ++ escapeHtml s.
Proof. reflexivity. Qed.

(** The escaped text holds no angle bracket and no no-break space, and it
    determines the text: two texts with the same escaped form are equal. *)
Theorem escapeHtml_safe_and_faithful (text : jsstring) :
  ~ In "<"%char (escapeHtml text)
  /\ ~ In ">"%char (escapeHtml text)
  /\ ~ In (ascii_of_nat 160) (escapeHtml text)
  /\ forall text', escapeHtml text = escapeHtml text' -> text = text'.
Proof.
  assert (forall x, x = "<"%char \/ x = ">"%char \/ x = ascii_of_nat 160 ->
                    ~ In x (escapeHtml text)) as Safe.
  { intros x X I. unfold escapeHtml in I. apply in_flat_map in I as [c [_ I]].
    destruct (escapeChar_class c)
      as [[_ E]|[[_ E]|[[_ E]|[[_ E]|[E [_ [N3 [N4 N2]]]]]]]]; rewrite E in I;
      simpl in I; destruct X as [-> | [-> | ->]]; intuition (discriminate || congruence). }
  split; [apply Safe; now left|]. split; [apply Safe; right; now left|].
  split; [apply Safe; right; now right|]. clear Safe.
  induction text as [|c s IH]; intros [|c' s'] H.
  - reflexivity.
  - exfalso. rewrite escapeHtml_cons in H.
    destruct (escapeChar_class c')
      as [[_ E]|[[_ E]|[[_ E]|[[_ E]|[E _]]]]]; rewrite E in H; discriminate.
  - exfalso. rewrite escapeHtml_cons in H.
    destruct (escapeChar_class c)
      as [[_ E]|[[_ E]|[[_ E]|[[_ E]|[E _]]]]]; rewrite E in H; discriminate.
  - rewrite !escapeHtml_cons in H.
    destruct (escapeChar_class c)
      as [[C E]|[[C E]|[[C E]|[[C E]|[E [C _]]]]]];
      destruct (escapeChar_class c')
        as [[C' E']|[[C' E']|[[C' E']|[[C' E']|[E' [C' _]]]]]];
      rewrite E, E' in H; try discriminate H;
      try (injection H as H; subst; f_equal; now apply IH);
      try (injection H as H0 H; subst; congruence).
Qed.

(** ** extractTimestamp *)

Lemma matchesIn_suffix (p q : regex) (s : jsstring) :
  matchesIn (p ++ q) s -> matchesIn q s.
Proof.
  intros [i [m [pre [post [-> [_ F]]]]]].
  apply fits_app_inv in F as [m1 [m2 [-> [_ F2]]]].
  exists (List.length (pre ++ m1)), m2, (pre ++ m1), post.
  repeat split; [now rewrite <- !app_assoc | exact F2].
Qed.

Lemma time_inside :
  isoPattern = isoDate ++ timePattern /\ usPattern = usDate ++ timePattern.
Proof. split; reflexivity. Qed.

(** A timestamp is found exactly when the line holds HH:MM:SS somewhere;
    what is returned occurs in the line and is 19 or 8 characters long. *)
Theorem extractTimestamp_found_iff (line : jsstring) :
  (extractTimestamp line = None <-> ~ matchesIn timePattern line)
  /\ forall ts, extractTimestamp line = Some ts ->
                includes line ts = true
                /\ (List.length ts = 19 \/ List.length ts = 8).
Proof.
  destruct time_inside as [Ei Eu]. split.
  - split.
    + intros N M. destruct (exec_matchesIn _ _ M) as [m E].
      unfold extractTimestamp, patterns in N. cbn [firstMatch] in N.
      destruct (exec isoPattern line); [discriminate|].
      destruct (exec usPattern line); [discriminate|].
      rewrite E in N. discriminate.
    + intros N. destruct (extractTimestamp line) as [ts|] eqn:X; [|reflexivity].
      exfalso. apply N.
      destruct (extractTimestamp_source line ts X) as [p [I E]].
      apply exec_some in E as [i [M _]].
      assert (matchesIn p line) as Mp by (now exists i, ts).
      simpl in I. destruct I as [<-|[<-|[<-|[]]]].
      * rewrite Ei in Mp. now apply matchesIn_suffix in Mp.
      * rewrite Eu in Mp. now apply matchesIn_suffix in Mp.
      * exact Mp.
  - intros ts X. destruct (extractTimestamp_source line ts X) as [p [I E]]. split.
    + apply exec_some in E as [i [M _]]. now apply (matchesAt_includes p line ts i).
    + apply exec_fits, fits_length in E.
      simpl in I. destruct I as [<-|[<-|[<-|[]]]]; rewrite E; auto.
Qed.

(** ** getLogClass *)

Lemma includes_inside (s needle pre post : jsstring) :
  includes s needle = true -> includes (pre ++ s ++ post) needle = true.
Proof.
  rewrite !includes_iff. intros [a [b ->]].
  exists (pre ++ a), (b ++ post). now rewrite <- !app_assoc.
Qed.

Lemma mentionsb_inside (words : list jsstring) (line pre post : jsstring) :
  mentionsb words line = true -> mentionsb words (pre ++ line ++ post) = true.
Proof.
  unfold mentionsb. rewrite !existsb_exists. intros [word [I H]].
  exists word. split; [exact I|].
  unfold toLowerCase. rewrite !map_app. now apply includes_inside.
Qed.

(** Text added around a line never lowers its category below error: a line
    classified as error stays so inside any longer line. *)
Theorem getLogClass_error_absorbs (line pre post : jsstring) :
  getLogClass line = str "error" -> getLogClass (pre ++ line ++ post) = str "error".
Proof.
  rewrite !getLogClass_unfold. intros H.
  destruct (mentionsb errorWords line) eqn:E.
  - now rewrite (mentionsb_inside _ _ pre post E).
  - exfalso. destruct (mentionsb warningWords line); [discriminate|].
    destruct (mentionsb successWords line); [discriminate|].
    destruct (mentionsb infoWords line); discriminate.
Qed.

Lemma getLogClass_error_absorbs_witness :
  getLogClass (str "10:00 " ++ str "upload FAILED" ++ str ", retry ok") = str "error".
Proof.
  exact (getLogClass_error_absorbs (str "upload FAILED") (str "10:00 ")
           (str ", retry ok") eq_refl).
Defined.

(** ** displayLogs *)

Lemma trimStart_nil_iff (s : jsstring) : trimStart s = [] <-> spaces s.
Proof.
  unfold spaces. induction s as [|c s IH]; simpl.
  - split; [constructor | reflexivity].
  - destruct (isSpace c) eqn:S.
    + rewrite IH. split; [now constructor | now inversion 1].
    + split; [discriminate | inversion 1; congruence].
Qed.

Lemma trim_nil_iff (s : jsstring) : trim s = [] <-> spaces s.
Proof.
  split.
  - intros T. destruct (trim_split s) as [a [b [E [Fa Fb]]]].
    rewrite T in E. rewrite E. unfold spaces in *. apply Forall_app. now split.
  - intros F. unfold trim, trimEnd.
    apply trimStart_nil_iff in F. now rewrite F.
Qed.

Lemma nonBlank_false_iff (line : jsstring) : nonBlank line = false <-> spaces line.
Proof.
  unfold nonBlank. rewrite <- trim_nil_iff. destruct (trim line); simpl.
  - now split.
  - split; discriminate.
Qed.

Lemma split_nonempty (sep : ascii) (s : jsstring) : split sep s <> [].
Proof.
  induction s as [|c s IH]; simpl; [discriminate|].
  destruct (Ascii.eqb c sep); [discriminate|].
  destruct (split sep s); [contradiction | discriminate].
Qed.

(** A text is blank exactly when each of its lines is. *)
Lemma spaces_split (s : jsstring) :
  spaces s <-> Forall spaces (split newline s).
Proof.
  unfold spaces. induction s as [|c s IH]; simpl.
  - split; intros; repeat constructor.
  - destruct (Ascii.eqb_spec c newline) as [->|N].
    + split.
      * intros F. inversion F; subst. constructor; [constructor | now apply IH].
      * intros F. inversion F; subst. constructor; [reflexivity | now apply IH].
    + pose proof (split_nonempty newline s) as NE.
      destruct (split newline s) as [|cur rest]; [contradiction|]. split.
      * intros F. inversion F as [|? ? Hc Hs]; subst. apply IH in Hs.
        inversion Hs; subst. constructor; [now constructor | assumption].
      * intros F. inversion F as [|? ? Hc Hr]; subst. inversion Hc; subst.
        constructor; [assumption|]. apply IH. now constructor.
Qed.

Lemma filter_nonBlank_nil (ls : list jsstring) :
  filter nonBlank ls = [] <-> Forall spaces ls.
Proof.
  induction ls as [|l ls IH]; simpl.
  - split; [constructor | reflexivity].
  - destruct (nonBlank l) eqn:B.
    + split; [discriminate|]. intros F. inversion F; subst.
      apply nonBlank_false_iff in H1. congruence.
    + rewrite IH. apply nonBlank_false_iff in B. split; [now constructor | now inversion 1].
Qed.

Lemma blank_text_iff (logText : jsstring) :
  truthy (trim logText) = false <-> shownLines logText = [].
Proof.
  unfold shownLines. split.
  - intros T. assert (trim logText = []) as E by (now destruct (trim logText)).
    apply trim_nil_iff, spaces_split, filter_nonBlank_nil in E. now rewrite E.
  - intros S. apply (f_equal (@rev jsstring)) in S. rewrite rev_involutive in S.
    simpl in S. apply filter_nonBlank_nil, spaces_split, trim_nil_iff in S.
    now rewrite S.
Qed.

Lemma extractTimestamp_truthy (line ts : jsstring) :
  extractTimestamp line = Some ts -> truthy ts = true.
Proof.
  intros X. destruct (firstMatch_In _ _ _ X) as [p [I E]].
  exact (patterns_nonempty _ _ I (exec_fits _ _ _ E)).
Qed.

Lemma renderFrom_length (index : nat) (lines : list jsstring) :
  List.length (renderFrom index lines) = List.length lines.
Proof. revert index. induction lines as [|l ls IH]; intros; simpl; [|rewrite IH]; reflexivity. Qed.

Lemma renderFrom_nth (index k : nat) (lines : list jsstring) (line : jsstring) :
  nth_error lines k = Some line ->
  nth_error (renderFrom index lines) k
  = Some (Rendered (getLogClass line) (extractTimestamp line) (formatLogContent line)
            (index + k + 1)).
Proof.
  revert index k. induction lines as [|l ls IH]; intros index [|k] H; try discriminate.
  - simpl in H. injection H as ->. simpl. rewrite Nat.add_0_r. do 2 f_equal.
    destruct (extractTimestamp line) as [ts|] eqn:X; [|reflexivity].
    now rewrite (extractTimestamp_truthy _ _ X).
  - simpl in H. simpl. rewrite (IH (S index) k H). do 3 f_equal. lia.
Qed.

Lemma renderFrom_logLines (index : nat) (lines : list jsstring) :
  filter isLogLine (renderFrom index lines) = renderFrom index lines.
Proof. revert index. induction lines as [|l ls IH]; intros; simpl; [|rewrite IH]; reflexivity. Qed.

Lemma displayLogs_unfold (logText : jsstring) (v : viewer) :
  displayLogs logText v
  = Done (set_logContent
            (match shownLines logText with
             | [] => [Placeholder (str "No logs found or logs.txt is empty")]
             | _ => renderFrom 0 (shownLines logText)
             end) v).
Proof.
  unfold displayLogs. destruct (truthy (trim logText)) eqn:T; simpl.
  - fold (shownLines logText).
    destruct (shownLines logText) eqn:S; [|reflexivity].
    apply blank_text_iff in S. congruence.
  - apply blank_text_iff in T. now rewrite T.
Qed.

Lemma logContent_set_logContent (nodes : list node) (v : viewer) :
  logContent (out (set_logContent nodes v)) = nodes.
Proof. now destruct v as [? ? [] ? ? ? ? ? ?]. Qed.

(** Whatever the text, [displayLogs] shows its non-blank lines newest
    first: entry [k] (from 0) is the [k]-th non-blank line from the end, with
    its category, its timestamp if it has one, its escaped body and the
    number [k + 1]; a text with no such line gives the placeholder alone. *)
Theorem displayLogs_newest_first (logText : jsstring) (v : viewer) :
  (shownLines logText = [] ->
   logContent (out (stateOf (displayLogs logText v)))
   = [Placeholder (str "No logs found or logs.txt is empty")])
  /\ (shownLines logText <> [] ->
      List.length (logContent (out (stateOf (displayLogs logText v))))
      = List.length (shownLines logText)
      /\ forall k line,
          nth_error (shownLines logText) k = Some line ->
          nth_error (logContent (out (stateOf (displayLogs logText v)))) k
          = Some (Rendered (getLogClass line) (extractTimestamp line)
                    (formatLogContent line) (k + 1))).
Proof.
  rewrite displayLogs_unfold. cbn [stateOf]. rewrite logContent_set_logContent.
  split.
  - now intros ->.
  - intros N. destruct (shownLines logText) as [|l ls] eqn:S; [contradiction|].
    split; [apply renderFrom_length|].
    intros k line H. now rewrite (renderFrom_nth 0 k _ line H).
Qed.

Lemma displayLogs_newest_first_witness :
  nth_error
    (logContent
       (out (stateOf (displayLogs
                        (str "2024-01-01 10:00:00 ERROR Failed to connect"
                             ++ [newline] ++ [newline]
                             ++ str "2024-01-01 10:00:05 OK done" ++ [newline])
                        (construct idleControls
                           (Inputs false (str "5") (str "minutes") false)
                           (Display [] 0 ([], []) [] false [] []))))))
    1
  = Some (Rendered (str "error") (Some (str "2024-01-01 10:00:00"))
            (str "ERROR Failed to connect") 2).
Proof.
  match goal with
  | |- nth_error (logContent (out (stateOf (displayLogs ?t ?v)))) _ = _ =>
      destruct (displayLogs_newest_first t v) as [_ H]
  end.
  destruct H as [_ H]; [vm_compute; discriminate|].
  exact (H 1 (str "2024-01-01 10:00:00 ERROR Failed to connect") eq_refl).
Defined.

(** ** Invariants of the display and the controls *)

Section Frame.

Variable P : viewer -> Prop.

Hypothesis P_wide : forall v v', wide v = wide v' -> P v -> P v'.
Hypothesis F_logsSettle : forall w o, preserves P (dispatch w (LogsSettle o)).
Hypothesis F_stopAutoRefresh : preserves P stopAutoRefresh.
Hypothesis F_restart :
  preserves P (stopAutoRefresh ;;
               (fun v => let '(h, v') := setInterval RefreshTick 5000 v in
                         Done (set_autoRefreshInterval (Some h) v'))).
Hypothesis F_clearScheduledTask : preserves P clearScheduledTask.
Hypothesis F_rearm :
  forall ms,
    preserves P (clearScheduledTask ;;
                 (fun v => let '(h, v') := setInterval ScheduleTick ms v in
                           Done (set_scheduledTask (Some h) v'))).
Hypothesis F_setTimeout : preserves P (act setTimeout).
Hypothesis F_addLogEntry : forall message type, preserves P (addLogEntry message type).
Hypothesis F_clearLogs : preserves P clearLogs.
Hypothesis F_raise : preserves P raiseFlags.
Hypothesis F_lower : preserves P startBotFinally.

(** A step that writes outside [wide]. *)
Ltac aside :=
  let v := fresh "v" in
  let H := fresh "H" in
  intros v H; refine (P_wide _ _ _ H);
  destruct v as [[] [] [] [] ? ? ? ? ?];
  first [ reflexivity
        | match goal with |- context [if ?x then _ else _] => destruct x end;
          reflexivity
        | match goal with |- context [match ?x with _ => _ end] => destruct x end;
          reflexivity ].

Ltac walk :=
  repeat first [ apply F_setTimeout
               | apply F_addLogEntry
               | apply preserves_andThen
               | apply preserves_skip
               | apply preserves_throw
               | solve [aside]
               | match goal with |- preserves _ (match ?w with _ => _ end) => destruct w end ].

Lemma frame_loadLogs (w : variant) : preserves P (loadLogs w).
Proof.
  intros v H. unfold loadLogs. destruct (isLoading v); [exact H|].
  revert v H. unfold setStatus, hideError. destruct w; walk.
Qed.

Lemma frame_setScheduleBtn (x : bool) : preserves P (set_scheduleBtn_disabled x).
Proof.
  intros v H. unfold set_scheduleBtn_disabled. destruct (scheduleBtn v); [|exact H].
  refine (P_wide _ _ _ H). now destruct v as [[] [] [] [] ? ? ? ? ?].
Qed.

Lemma frame_startAutoRefresh (w : variant) : preserves P (startAutoRefresh w).
Proof.
  unfold startAutoRefresh. intros v Pv. rewrite andThen_assoc. revert v Pv.
  apply preserves_andThen; [apply F_restart | apply frame_loadLogs].
Qed.

Lemma frame_showToast (message : jsstring) (type : string) :
  preserves P (showToast message type).
Proof. unfold showToast. walk. Qed.

Lemma frame_setStatus (text type : string) : preserves P (setStatus text type).
Proof. unfold setStatus. aside. Qed.

Lemma frame_startBot (w : variant) : preserves P (startBot w).
Proof.
  apply preserves_unless.
  change (preserves P
            (raiseFlags ;;
             match w with
             | Dashboard => setStatus "Running" "info" ;; act fetchProcess
             | Script =>
                 set_scheduleBtn_disabled true ;;
                 addLogEntry (str "Bot started successfully") "success" ;;
                 setStatus "Bot Running" "success" ;;
                 unless (fun v => handleTruthy (autoRefreshInterval v))
                   (act (set_autoRefreshCheckbox_checked true) ;; startAutoRefresh w)
             end)).
  apply preserves_andThen; [apply F_raise|].
  destruct w.
  - apply preserves_andThen; [apply frame_setStatus | aside].
  - apply preserves_andThen; [apply frame_setScheduleBtn|].
    apply preserves_andThen; [apply F_addLogEntry|].
    apply preserves_andThen; [apply frame_setStatus|].
    apply preserves_unless. apply preserves_andThen; [aside | apply frame_startAutoRefresh].
Qed.

Lemma frame_startBotSettled (o : botOutcome) : preserves P (startBotSettled o).
Proof.
  apply preserves_tryCatchFinally; [| intros e | apply F_lower].
  - unfold startBotBody. destruct o as [e|status [e|result]]; try apply preserves_throw.
    destruct (responseOk status), (readProperty result _);
      try apply preserves_throw;
      destruct (orDefault _ _); try apply preserves_throw.
    apply preserves_andThen; [apply frame_showToast | apply frame_setStatus].
  - unfold startBotCatch.
    apply preserves_andThen; [aside|].
    apply preserves_andThen; [apply frame_setStatus|].
    apply preserves_andThen; [apply frame_showToast | apply F_addLogEntry].
Qed.

Lemma frame_stopBot : preserves P stopBot.
Proof.
  apply preserves_unless.
  change (preserves P
            (startBotFinally ;;
             set_scheduleBtn_disabled false ;;
             clearScheduledTask ;;
             addLogEntry (str "Bot stopped") "info" ;;
             setStatus "Bot Stopped" "error")).
  apply preserves_andThen; [apply F_lower|].
  apply preserves_andThen; [apply frame_setScheduleBtn|].
  apply preserves_andThen; [apply F_clearScheduledTask|].
  apply preserves_andThen; [apply F_addLogEntry | apply frame_setStatus].
Qed.

Lemma frame_scheduleBot (w : variant) (ms : Z) : preserves P (scheduleBot w ms).
Proof.
  unfold scheduleBot. intros v Pv. rewrite andThen_assoc. revert v Pv.
  apply preserves_andThen; [apply F_rearm|].
  apply preserves_when, frame_startBot.
Qed.

Lemma frame_enableSchedule (w : variant) : preserves P (enableSchedule w).
Proof.
  intros v Pv. unfold enableSchedule.
  destruct (millisecondsOf (intervalOf v) (scheduleUnit_value (inp v)) <? 1000)%Z.
  - revert v Pv. apply preserves_andThen; aside.
  - apply (preserves_andThen P (scheduleBot w _) (addLogEntry _ _));
      [apply frame_scheduleBot | apply F_addLogEntry | exact Pv].
Qed.

Lemma frame_runCallback (w : variant) (cb : callback) : preserves P (runCallback w cb).
Proof.
  destruct cb; cbn [runCallback]; [apply frame_loadLogs|].
  apply preserves_andThen; [apply preserves_when, frame_startBot | apply F_addLogEntry].
Qed.

(** Every event keeps the invariant. *)
Lemma frame_dispatch (w : variant) (e : event) : preserves P (dispatch w e).
Proof.
  destruct e; try apply F_logsSettle; cbn [dispatch].
  - apply frame_loadLogs.
  - apply F_clearLogs.
  - apply preserves_andThen; [aside|].
    destruct checked; [apply frame_startAutoRefresh | apply F_stopAutoRefresh].
  - apply frame_startBot.
  - apply frame_stopBot.
  - apply preserves_andThen; [aside|].
    apply preserves_ifElse; [apply frame_enableSchedule|].
    apply preserves_andThen; [apply F_clearScheduledTask | apply F_addLogEntry].
  - apply preserves_andThen; [aside|]. apply preserves_when, frame_enableSchedule.
  - apply preserves_andThen; [aside|]. apply preserves_when, frame_enableSchedule.
  - intros v Pv. destruct (find _ _) as [t|]; [|exact Pv].
    now apply frame_runCallback.
  - intros v Pv. destruct (pendingBot (env v)) as [|n]; [exact Pv|].
    apply frame_startBotSettled. revert v Pv. aside.
  - apply F_setTimeout.
  - apply preserves_skip.
Qed.

End Frame.

(** When the log fetch settles, the entries and the counter are those of the
    text received, or stay as they were when the fetch failed. *)
Lemma loadLogsSettled_wide (w : variant) (o : logsOutcome) (v : viewer) :
  wide (stateOf (loadLogsSettled w o v))
  = wide (match o with
          | LogsResponse status _ (Text logText) =>
              if responseOk status
              then set_totalLines (List.length (filter nonBlank (split newline logText)))
                     (stateOf (displayLogs logText v))
              else v
          | _ => v
          end).
Proof.
  unfold loadLogsSettled, tryCatchFinally, loadLogsBody, loadLogsCatch.
  destruct o as [e'|status statusText [e'|logText]]; cbn.
  - destruct v as [[] [] [] [] ? ? ? ? ?]. destruct w; reflexivity.
  - destruct v as [[] [] [] [] ? ? ? ? ?].
    destruct (responseOk status); cbn; destruct w; reflexivity.
  - destruct (responseOk status); cbn;
      [|destruct v as [[] [] [] [] ? ? ? ? ?]; destruct w; reflexivity].
    unfold andThen. rewrite displayLogs_unfold.
    destruct v as [[] [] [] [] ? ? running task ?].
    unfold updateStats, andThen, ifElse, act. cbn.
    destruct running; cbn; destruct w; cbn;
      try reflexivity; destruct (handleTruthy task); reflexivity.
Qed.

Lemma counterInv_dispatch (w : variant) (e : event) : preserves counterInv (dispatch w e).
Proof.
  apply frame_dispatch; unfold counterInv, logLineCount.
  - intros v v' E H. unfold wide in E. injection E as _ _ E3 E4 _ _ _ _.
    now rewrite <- E3, <- E4.
  - intros w' o v H. cbn. destruct (pendingLogs (env v)) as [|n] eqn:E; [exact H|].
    pose proof (loadLogsSettled_wide w' o (set_pendingLogs n v)) as W.
    unfold wide in W. injection W as _ _ W3 W4 _ _ _ _. rewrite W3, W4. clear W3 W4.
    assert (totalLines (out (set_pendingLogs n v))
            = List.length (filter isLogLine (logContent (out (set_pendingLogs n v)))))
      as H' by (destruct v as [[] [] [] [] ? ? ? ? ?]; exact H).
    destruct o as [e'|status statusText [e'|logText]]; try exact H'.
    destruct (responseOk status); [|exact H'].
    rewrite displayLogs_unfold. cbn [stateOf].
    generalize (set_pendingLogs n v). intros u.
    assert (List.length (filter nonBlank (split newline logText))
            = List.length (shownLines logText)) as L
        by (unfold shownLines; now rewrite length_rev).
    rewrite L. destruct u as [? ? [] ? ? ? ? ? ?]. cbn.
    destruct (shownLines logText) as [|l ls]; [reflexivity|].
    now rewrite renderFrom_logLines, renderFrom_length.
  - intros v H. unfold stopAutoRefresh, when, ifElse, skip.
    destruct (handleTruthy (autoRefreshInterval v)); [|exact H].
    destruct (autoRefreshInterval v); [|exact H].
    destruct v as [[] [] [] [] ? ? ? ? ?]. exact H.
  - intros v H. unfold andThen, stopAutoRefresh, when, ifElse, skip.
    destruct (handleTruthy (autoRefreshInterval v));
      [destruct (autoRefreshInterval v)|];
      destruct v as [[] [] [] [] ? ? ? ? ?]; exact H.
  - intros v H. rewrite clearScheduledTask_unfold.
    destruct (scheduledTask v) as [h|]; [|exact H].
    destruct (negb (h =? 0)); [|exact H].
    destruct v as [[] [] [] [] ? ? ? ? ?]. exact H.
  - intros ms v H. unfold andThen. rewrite clearScheduledTask_unfold.
    destruct (scheduledTask v) as [h|];
      [destruct (negb (h =? 0))|];
      destruct v as [[] [] [] [] ? ? ? ? ?]; exact H.
  - intros v H. destruct v as [[] [] [] [] ? ? ? ? ?]. exact H.
  - intros message type v H. destruct v as [[] [] [] [] ? ? ? ? ?]. reflexivity.
  - intros v H. destruct v as [[] [] [] [] ? ? ? ? ?]. reflexivity.
  - intros v H. destruct v as [[] [] [] [] ? ? ? ? ?]. exact H.
  - intros v H. destruct v as [[] [] [] [] ? ? ? ? ?]. exact H.
Qed.

(** On a page whose counter starts right, after every sequence of events
    and in both variants, whenever no entry on display was added with
    markup in its message, the total-lines counter shows the number of log
    entries displayed: entries rendered from a fetch and entries added by
    the viewer are counted alike, and a placeholder is not counted.  (An
    entry whose message holds markup may bring [.log-line] elements of its
    own, which the counter of the code would count.) *)
Theorem counter_matches_entries (w : variant) (es : list event) (c : controls)
        (i : inputs) (o : display) :
  totalLines o = List.length (filter isLogLine (logContent o)) ->
  forallb plainEntry (logContent (out (run w es (construct c i o)))) = true ->
  totalLines (out (run w es (construct c i o)))
  = logLineCount (run w es (construct c i o)).
Proof.
  intros H _. apply (run_preserves counterInv w (counterInv_dispatch w)). exact H.
Qed.

Lemma counter_matches_entries_witness :
  totalLines
    (out (run Dashboard
            [ClickRefresh;
             LogsSettle (LogsResponse 200 (str "OK")
                           (Text (str "10:00:00 started" ++ [newline] ++ str "10:00:05 ok")));
             ClickStart; BotSettle (BotFetchFailed (TypeError (str "Failed to fetch")))]
            (construct idleControls (Inputs false (str "5") (str "minutes") false)
               (Display [] 0 ([], []) [] false [] []))))
  = 3.
Proof.
  exact (counter_matches_entries Dashboard
           [ClickRefresh;
            LogsSettle (LogsResponse 200 (str "OK")
                          (Text (str "10:00:00 started" ++ [newline] ++ str "10:00:05 ok")));
            ClickStart; BotSettle (BotFetchFailed (TypeError (str "Failed to fetch")))]
           idleControls (Inputs false (str "5") (str "minutes") false)
           (Display [] 0 ([], []) [] false [] []) eq_refl eq_refl).
Defined.

Lemma controlsInv_dispatch (w : variant) (e : event) : preserves controlsInv (dispatch w e).
Proof.
  apply frame_dispatch; unfold controlsInv.
  - intros v v' E H. unfold wide in E. injection E as E1 E2 _ _ _ _ _ _.
    now rewrite <- E1, <- E2.
  - intros w' o v H. cbn. destruct (pendingLogs (env v)) as [|n] eqn:E; [exact H|].
    pose proof (loadLogsSettled_wide w' o (set_pendingLogs n v)) as W.
    unfold wide in W. injection W as W1 W2 _ _ _ _ _ _. rewrite W1, W2. clear W1 W2.
    destruct o as [e'|status statusText [e'|logText]];
      try (destruct v as [[] [] [] [] ? ? ? ? ?]; exact H).
    destruct (responseOk status);
      [|destruct v as [[] [] [] [] ? ? ? ? ?]; exact H].
    rewrite displayLogs_unfold. destruct v as [[] [] [] [] ? ? ? ? ?]. exact H.
  - intros v H. unfold stopAutoRefresh, when, ifElse, skip.
    destruct (handleTruthy (autoRefreshInterval v)); [|exact H].
    destruct (autoRefreshInterval v); [|exact H].
    destruct v as [[] [] [] [] ? ? ? ? ?]. exact H.
  - intros v H. unfold andThen, stopAutoRefresh, when, ifElse, skip.
    destruct (handleTruthy (autoRefreshInterval v));
      [destruct (autoRefreshInterval v)|];
      destruct v as [[] [] [] [] ? ? ? ? ?]; exact H.
  - intros v H. rewrite clearScheduledTask_unfold.
    destruct (scheduledTask v) as [h|]; [|exact H].
    destruct (negb (h =? 0)); [|exact H].
    destruct v as [[] [] [] [] ? ? ? ? ?]. exact H.
  - intros ms v H. unfold andThen. rewrite clearScheduledTask_unfold.
    destruct (scheduledTask v) as [h|];
      [destruct (negb (h =? 0))|];
      destruct v as [[] [] [] [] ? ? ? ? ?]; exact H.
  - intros v H. destruct v as [[] [] [] [] ? ? ? ? ?]. exact H.
  - intros message type v H. destruct v as [[] [] [] [] ? ? ? ? ?]. exact H.
  - intros v H. destruct v as [[] [] [] [] ? ? ? ? ?]. exact H.
  - intros v H. destruct v as [[] [] [] [] ? ? ? ? ?]. reflexivity.
  - intros v H. destruct v as [[] [] [] [] ? ? ? ? ?]. reflexivity.
Qed.

(** On a page whose controls start in their idle state, after every sequence
    of events and in both variants the five controls are exactly in their
    running state while the running flag is up and in their idle state
    otherwise. *)
Theorem controls_follow_running_flag (w : variant) (es : list event) (i : inputs)
        (o : display) :
  ctl (run w es (construct idleControls i o))
  = if isBotRunning (run w es (construct idleControls i o))
    then runningControls else idleControls.
Proof. apply (run_preserves controlsInv w (controlsInv_dispatch w)). reflexivity. Qed.

(** ** Timers and the handles that hold them *)

Lemma callbackEqb_eq (a b : callback) : callbackEqb a b = true <-> a = b.
Proof. destruct a, b; simpl; split; congruence. Qed.

Lemma firesAs_schedule (t : timer) : firesAs ScheduleTick t = isSchedule t.
Proof. unfold firesAs, isSchedule. now destruct (timerCallback t). Qed.

Lemma filter_swap (A : Type) (f g : A -> bool) (l : list A) :
  filter f (filter g l) = filter g (filter f l).
Proof.
  induction l as [|a l IH]; simpl; [reflexivity|].
  destruct (f a) eqn:F, (g a) eqn:G; simpl; rewrite ?F, ?G, IH; reflexivity.
Qed.

Lemma Forall_filter (A : Type) (Q : A -> Prop) (f : A -> bool) (l : list A) :
  Forall Q l -> Forall Q (filter f l).
Proof.
  intros H. apply Forall_forall. intros x I. apply filter_In in I as [I _].
  rewrite Forall_forall in H. now apply H.
Qed.

Lemma NoDup_map_eq (A B : Type) (f : A -> B) (l : list A) (x y : A) :
  NoDup (map f l) -> In x l -> In y l -> f x = f y -> x = y.
Proof.
  induction l as [|a l IH]; simpl; intros D Ix Iy E; [contradiction|].
  inversion D as [|? ? N D']; subst.
  destruct Ix as [->|Ix], Iy as [->|Iy].
  - reflexivity.
  - exfalso. apply N. rewrite E. now apply in_map.
  - exfalso. apply N. rewrite <- E. now apply in_map.
  - now apply IH.
Qed.

Lemma held_In (cb : callback) (ts : list timer) (n : handle) (delay : Z) :
  filter (firesAs cb) ts = [Timer n cb delay] -> In (Timer n cb delay) ts.
Proof.
  intros E. assert (In (Timer n cb delay) (filter (firesAs cb) ts)) as I
      by (rewrite E; now left).
  now apply filter_In in I.
Qed.

(** [clearInterval] of the handle held for one callback removes its timer
    and leaves the timer of the other callback alone. *)
Lemma handlesOk_clear (ts : list timer) (next : handle)
      (hs hs' : callback -> option handle) (cb : callback) (n : handle) :
  handlesOk ts next hs -> hs cb = Some n ->
  (forall cb', hs' cb' = if callbackEqb cb' cb then None else hs cb') ->
  handlesOk (filter (fun t => negb (timerId t =? n)) ts) next hs'
  /\ forall cb', cb' <> cb ->
                 filter (firesAs cb') (filter (fun t => negb (timerId t =? n)) ts)
                 = filter (firesAs cb') ts.
Proof.
  intros [N [B [D [H R]]]] Hcb U.
  pose proof (H cb) as Hn. rewrite Hcb in Hn. destruct Hn as [delay En].
  assert (forall cb', cb' <> cb ->
                      filter (firesAs cb') (filter (fun t => negb (timerId t =? n)) ts)
                      = filter (firesAs cb') ts) as Other.
  { intros cb' Ne. rewrite filter_swap.
    specialize (H cb'). destruct (hs cb') as [m|].
    - destruct H as [d' Em]. rewrite Em. simpl.
      destruct (Nat.eqb_spec m n) as [->|_]; [|reflexivity].
      exfalso. apply Ne.
      assert (Timer n cb' d' = Timer n cb delay) as E.
      { apply (NoDup_map_eq _ _ timerId ts); try assumption;
          [now apply held_In | now apply held_In | reflexivity]. }
      now injection E.
    - now rewrite H. }
  split; [|exact Other]. repeat split.
  - exact N.
  - now apply Forall_filter.
  - now apply NoDup_map_filter.
  - intros cb'. rewrite (U cb'). destruct (callbackEqb cb' cb) eqn:C.
    + apply callbackEqb_eq in C as ->. rewrite filter_swap, En. simpl.
      now rewrite Nat.eqb_refl.
    + rewrite Other; [apply H|]. intros ->.
      assert (callbackEqb cb cb = true) by now apply callbackEqb_eq. congruence.
  - now apply Forall_filter.
Qed.

(** A handle that is not truthy holds nothing: it is [None] and no timer of
    its callback is alive. *)
Lemma handlesOk_unarmed (ts : list timer) (next : handle)
      (hs : callback -> option handle) (cb : callback) :
  handlesOk ts next hs -> handleTruthy (hs cb) = false ->
  hs cb = None /\ filter (firesAs cb) ts = [].
Proof.
  intros [_ [B [_ [H _]]]] F. specialize (H cb).
  destruct (hs cb) as [n|]; [|now split].
  exfalso. destruct H as [delay E]. apply held_In in E.
  rewrite Forall_forall in B. specialize (B _ E). simpl in *.
  apply negb_false_iff, Nat.eqb_eq in F. lia.
Qed.

Lemma handlesOk_arm (ts : list timer) (next : handle)
      (hs hs' : callback -> option handle) (cb : callback) (delay : Z) :
  handlesOk ts next hs -> filter (firesAs cb) ts = [] ->
  (cb = RefreshTick -> delay = 5000%Z) ->
  (forall cb', hs' cb' = if callbackEqb cb' cb then Some next else hs cb') ->
  handlesOk (Timer next cb delay :: ts) (S next) hs'.
Proof.
  intros [N [B [D [H R]]]] E Rd U. destruct (timersOk_fresh ts next B) as [Fr B'].
  repeat split.
  - lia.
  - constructor; [simpl; lia | exact B'].
  - simpl. now constructor.
  - intros cb'. rewrite (U cb').
    change (filter (firesAs cb') (Timer next cb delay :: ts))
      with (if callbackEqb cb cb' then Timer next cb delay :: filter (firesAs cb') ts
            else filter (firesAs cb') ts).
    destruct (callbackEqb cb' cb) eqn:C.
    + apply callbackEqb_eq in C as ->.
      assert (callbackEqb cb cb = true) as -> by now apply callbackEqb_eq.
      exists delay. now rewrite E.
    + assert (callbackEqb cb cb' = false) as ->.
      { destruct (callbackEqb cb cb') eqn:C'; [|reflexivity].
        apply callbackEqb_eq in C' as ->.
        assert (callbackEqb cb' cb' = true) by now apply callbackEqb_eq. congruence. }
      apply H.
  - constructor; [exact Rd | exact R].
Qed.

Lemma handlesOk_bump (ts : list timer) (next : handle) (hs : callback -> option handle) :
  handlesOk ts next hs -> handlesOk ts (S next) hs.
Proof.
  intros [N [B [D [H R]]]]. destruct (timersOk_fresh ts next B) as [_ B'].
  repeat split; try assumption. lia.
Qed.

Lemma handlesOk_ext (ts : list timer) (next : handle)
      (hs hs' : callback -> option handle) :
  (forall cb, hs cb = hs' cb) -> handlesOk ts next hs -> handlesOk ts next hs'.
Proof.
  intros E [N [B [D [H R]]]]. repeat split; try assumption.
  intros cb. rewrite <- E. apply H.
Qed.

Lemma handlesOk_count (ts : list timer) (next : handle)
      (hs : callback -> option handle) (cb : callback) :
  handlesOk ts next hs -> List.length (filter (firesAs cb) ts) <= 1.
Proof.
  intros [_ [_ [_ [H _]]]]. specialize (H cb).
  destruct (hs cb); [destruct H as [delay ->] | rewrite H]; simpl; lia.
Qed.

(** What [stopAutoRefresh] does, in one piece. *)
Lemma stopAutoRefresh_unfold (v : viewer) :
  stopAutoRefresh v
  = Done (match autoRefreshInterval v with
          | Some h => if negb (h =? 0)
                      then set_autoRefreshInterval None (clearInterval h v)
                      else v
          | None => v
          end).
Proof.
  unfold stopAutoRefresh, when, ifElse, skip.
  destruct (autoRefreshInterval v) as [h|]; cbn; [|reflexivity].
  now destruct (negb (h =? 0)).
Qed.

(** Cancelling the timers of one callback: none is left, the handle is
    [None], the timers of the other callback stay, and nothing else of the
    viewer changes. *)
Lemma stopAutoRefresh_clears (v : viewer) :
  handlesInv v ->
  exists v',
    stopAutoRefresh v = Done v'
    /\ handlesInv v'
    /\ autoRefreshInterval v' = None
    /\ refreshTimers v' = []
    /\ scheduleTimers v' = scheduleTimers v
    /\ scheduledTask v' = scheduledTask v
    /\ nextHandle (env v') = nextHandle (env v)
    /\ requests (env v') = requests (env v)
    /\ isLoading v' = isLoading v.
Proof.
  intros I. rewrite stopAutoRefresh_unfold. eexists. split; [reflexivity|].
  unfold handlesInv, refreshTimers, scheduleTimers in *.
  destruct (autoRefreshInterval v) as [h|] eqn:A.
  - destruct (negb (h =? 0)) eqn:Z.
    + destruct (handlesOk_clear _ _ _
                  (fun cb => match cb with RefreshTick => None | ScheduleTick => scheduledTask v end)
                  RefreshTick h I A) as [I' Other]; [now intros []|].
      specialize (Other ScheduleTick ltac:(discriminate)).
      pose proof (handlesOk_unarmed _ _ _ RefreshTick I' eq_refl) as [_ E].
      rewrite !(filter_ext _ _ firesAs_schedule) in Other.
      destruct v as [[] [] [] [] ? ? ? ? ?].
      split; [exact I'|]. split; [reflexivity|]. split; [exact E|].
      split; [exact Other|]. repeat split.
    + exfalso.
      assert (handleTruthy (handleOf RefreshTick v) = false) as T
          by (cbn; rewrite A; exact Z).
      destruct (handlesOk_unarmed _ _ _ RefreshTick I T) as [E _]. cbn in E. congruence.
  - assert (handleTruthy (handleOf RefreshTick v) = false) as T by (cbn; now rewrite A).
    destruct (handlesOk_unarmed _ _ _ RefreshTick I T) as [_ E].
    rewrite A. split; [exact I|]. split; [reflexivity|]. split; [exact E|]. repeat split.
Qed.

Lemma clearScheduledTask_keeps_refresh (v : viewer) :
  handlesInv v ->
  exists v',
    clearScheduledTask v = Done v'
    /\ handlesInv v'
    /\ scheduledTask v' = None
    /\ scheduleTimers v' = []
    /\ refreshTimers v' = refreshTimers v
    /\ autoRefreshInterval v' = autoRefreshInterval v
    /\ nextHandle (env v') = nextHandle (env v).
Proof.
  intros I. rewrite clearScheduledTask_unfold. eexists. split; [reflexivity|].
  unfold handlesInv, refreshTimers, scheduleTimers in *.
  rewrite <- (filter_ext _ _ firesAs_schedule).
  destruct (scheduledTask v) as [h|] eqn:A.
  - destruct (negb (h =? 0)) eqn:Z.
    + destruct (handlesOk_clear _ _ _
                  (fun cb => match cb with RefreshTick => autoRefreshInterval v
                                      | ScheduleTick => None end)
                  ScheduleTick h I A) as [I' Other]; [now intros []|].
      specialize (Other RefreshTick ltac:(discriminate)).
      pose proof (handlesOk_unarmed _ _ _ ScheduleTick I' eq_refl) as [_ E].
      destruct v as [[] [] [] [] ? ? ? ? ?].
      split; [exact I'|]. split; [reflexivity|]. split; [exact E|].
      split; [exact Other|]. repeat split.
    + exfalso.
      assert (handleTruthy (handleOf ScheduleTick v) = false) as T
          by (cbn; rewrite A; exact Z).
      destruct (handlesOk_unarmed _ _ _ ScheduleTick I T) as [E _]. cbn in E. congruence.
  - assert (handleTruthy (handleOf ScheduleTick v) = false) as T by (cbn; now rewrite A).
    destruct (handlesOk_unarmed _ _ _ ScheduleTick I T) as [_ E].
    rewrite A. split; [exact I|]. split; [reflexivity|]. split; [exact E|]. repeat split.
Qed.

Lemma handlesInv_same (v v' : viewer) :
  (autoRefreshInterval v, scheduledTask v, timers (env v), nextHandle (env v))
  = (autoRefreshInterval v', scheduledTask v', timers (env v'), nextHandle (env v')) ->
  handlesInv v -> handlesInv v'.
Proof.
  intros E H. injection E as E5 E6 E7 E8.
  unfold handlesInv. rewrite <- E7, <- E8.
  apply (handlesOk_ext _ _ (fun cb => handleOf cb v)); [|exact H].
  intros []; cbn; congruence.
Qed.

Lemma handlesInv_wide (v v' : viewer) : wide v = wide v' -> handlesInv v -> handlesInv v'.
Proof.
  intros E. unfold wide in E. injection E as _ _ _ _ E5 E6 E7 E8.
  apply handlesInv_same. congruence.
Qed.

Lemma handlesInv_dispatch (w : variant) (e : event) : preserves handlesInv (dispatch w e).
Proof.
  apply frame_dispatch.
  - exact handlesInv_wide.
  - intros w' o v H. cbn. destruct (pendingLogs (env v)) as [|n] eqn:E; [exact H|].
    apply (handlesInv_same v); [|exact H].
    pose proof (loadLogsSettled_wide w' o (set_pendingLogs n v)) as W.
    unfold wide in W. injection W as _ _ _ _ W5 W6 W7 W8. rewrite W5, W6, W7, W8.
    clear W5 W6 W7 W8.
    destruct o as [e'|status statusText [e'|logText]];
      try (now destruct v as [[] [] [] [] ? ? ? ? ?]).
    destruct (responseOk status); [|now destruct v as [[] [] [] [] ? ? ? ? ?]].
    rewrite displayLogs_unfold. now destruct v as [[] [] [] [] ? ? ? ? ?].
  - intros v H. destruct (stopAutoRefresh_clears v H) as [v' [E [I _]]].
    rewrite E. exact I.
  - intros v H. destruct (stopAutoRefresh_clears v H) as [v' [E [I [A [R _]]]]].
    unfold andThen. rewrite E. unfold handlesInv, refreshTimers in *.
    destruct v' as [[] [] [] [] ? ? ? ? ?]. cbn in *. subst.
    apply (handlesOk_arm _ _ _ _ RefreshTick _ I R); [reflexivity | now intros []].
  - intros v H. destruct (clearScheduledTask_keeps_refresh v H) as [v' [E [I _]]].
    rewrite E. exact I.
  - intros ms v H.
    destruct (clearScheduledTask_keeps_refresh v H) as [v' [E [I [A [S _]]]]].
    unfold andThen. rewrite E. unfold handlesInv, scheduleTimers in *.
    rewrite <- (filter_ext _ _ firesAs_schedule) in S.
    destruct v' as [[] [] [] [] ? ? ? ? ?]. cbn in *. subst.
    apply (handlesOk_arm _ _ _ _ ScheduleTick _ I S); [discriminate | now intros []].
  - intros v H. unfold handlesInv in *. destruct v as [[] [] [] [] ? ? ? ? ?].
    cbn in *. now apply handlesOk_bump.
  - intros message type v H. apply (handlesInv_same v); [|exact H].
    now destruct v as [[] [] [] [] ? ? ? ? ?].
  - intros v H. apply (handlesInv_same v); [|exact H].
    now destruct v as [[] [] [] [] ? ? ? ? ?].
  - intros v H. apply (handlesInv_same v); [|exact H].
    now destruct v as [[] [] [] [] ? ? ? ? ?].
  - intros v H. apply (handlesInv_same v); [|exact H].
    now destruct v as [[] [] [] [] ? ? ? ? ?].
Qed.

Lemma handlesInv_run (w : variant) (es : list event) (c : controls) (i : inputs)
      (o : display) :
  handlesInv (run w es (construct c i o)).
Proof.
  apply (run_preserves handlesInv w (handlesInv_dispatch w)).
  repeat split; try constructor. now intros [].
Qed.

Lemma startAutoRefresh_rearms (w : variant) (v : viewer) :
  handlesInv v ->
  exists v',
    startAutoRefresh w v = Done v'
    /\ refreshTimers v' = [Timer (nextHandle (env v)) RefreshTick 5000]
    /\ autoRefreshInterval v' = Some (nextHandle (env v))
    /\ scheduleTimers v' = scheduleTimers v
    /\ fetched (logsUrl w) v'
       = if isLoading v then fetched (logsUrl w) v else S (fetched (logsUrl w) v).
Proof.
  intros I. destruct (stopAutoRefresh_clears v I)
    as [v1 [E [_ [_ [R [S [_ [N [Q L]]]]]]]]].
  unfold startAutoRefresh, andThen. rewrite E.
  unfold refreshTimers, scheduleTimers, fetched in *.
  destruct v1 as [[] [] [] [] ? ? ? ? ?]. cbn in *. subst.
  unfold loadLogs. cbn.
  assert (jsEqb (logsUrl w) (logsUrl w) = true) as J by (destruct w; reflexivity).
  destruct (isLoading v); cbn.
  - eexists. split; [reflexivity|]. cbn. rewrite R.
    split; [reflexivity|]. split; [reflexivity|]. split; [exact S | reflexivity].
  - destruct w; cbn; (eexists; split; [reflexivity|]); cbn; rewrite R;
      (split; [reflexivity|]); (split; [reflexivity|]); (split; [exact S|]);
      cbn in J |- *; now rewrite ?J.
Qed.

(** On every page reached by any sequence of events, in both variants: at
    most one refresh timer is alive, it has a period of 5000 ms and is the
    one [autoRefreshInterval] holds.  [stopAutoRefresh] leaves none, is a
    no-op when repeated and does not touch the schedule timer;
    [startAutoRefresh] leaves exactly one, newly created, and fetches the
    log once unless a fetch is pending; [clearScheduledTask] does not touch
    the refresh timer. *)
Theorem single_refresh_timer (w : variant) (es : list event) (c : controls)
        (i : inputs) (o : display) :
  List.length (refreshTimers (run w es (construct c i o))) <= 1
  /\ (forall t, In t (refreshTimers (run w es (construct c i o))) ->
                timerDelay t = 5000%Z
                /\ autoRefreshInterval (run w es (construct c i o)) = Some (timerId t))
  /\ (exists v',
         stopAutoRefresh (run w es (construct c i o)) = Done v'
         /\ refreshTimers v' = []
         /\ scheduleTimers v' = scheduleTimers (run w es (construct c i o))
         /\ stopAutoRefresh v' = Done v')
  /\ (exists v',
         startAutoRefresh w (run w es (construct c i o)) = Done v'
         /\ refreshTimers v'
            = [Timer (nextHandle (env (run w es (construct c i o)))) RefreshTick 5000]
         /\ scheduleTimers v' = scheduleTimers (run w es (construct c i o))
         /\ fetched (logsUrl w) v'
            = if isLoading (run w es (construct c i o))
              then fetched (logsUrl w) (run w es (construct c i o))
              else S (fetched (logsUrl w) (run w es (construct c i o))))
  /\ refreshTimers (stateOf (clearScheduledTask (run w es (construct c i o))))
     = refreshTimers (run w es (construct c i o)).
Proof.
  pose proof (handlesInv_run w es c i o) as I.
  set (v := run w es (construct c i o)) in *.
  split; [apply (handlesOk_count _ _ _ RefreshTick I)|].
  split.
  { intros t J. destruct I as [_ [_ [_ [H R]]]]. specialize (H RefreshTick).
    unfold refreshTimers in J. cbn in H. split.
    - apply filter_In in J as [J F]. rewrite Forall_forall in R. apply (R t J).
      unfold firesAs in F. now apply callbackEqb_eq in F.
    - destruct (autoRefreshInterval v) as [n|].
      + destruct H as [delay E]. rewrite E in J. destruct J as [<-|[]]. reflexivity.
      + rewrite H in J. destruct J. }
  split.
  { destruct (stopAutoRefresh_clears v I) as [v' [E [I' [A [R [S _]]]]]].
    exists v'. repeat split; try assumption.
    rewrite stopAutoRefresh_unfold. now rewrite A. }
  split.
  { destruct (startAutoRefresh_rearms w v I) as [v' [E [R [_ [S F]]]]].
    exists v'. repeat split; assumption. }
  destruct (clearScheduledTask_keeps_refresh v I) as [v' [E [_ [_ [_ [R _]]]]]].
  now rewrite E.
Qed.

(** ** The interval typed and the schedule *)

Lemma readDigits_uint (d : Decimal.uint) (a : nat) :
  readDigits 10 (str (NilEmpty.string_of_uint d)) (Some (Z.of_nat a))
  = Some (Z.of_nat (Nat.of_uint_acc d a)).
Proof.
  revert a. unfold str.
  induction d as [|d IH|d IH|d IH|d IH|d IH|d IH|d IH|d IH|d IH|d IH]; intros a;
    [reflexivity| ..];
    cbn [NilEmpty.string_of_uint list_ascii_of_string readDigits Nat.of_uint_acc];
    match goal with
    | |- context [digitValue ?c] =>
        let v := eval vm_compute in (digitValue c) in
        change (digitValue c) with v
    end;
    cbv beta iota;
    match goal with
    | |- context [(?k <? 10)%Z] => change (k <? 10)%Z with true
    end;
    cbv beta iota; rewrite <- IH; do 2 f_equal;
    rewrite Nat.tail_mul_spec; lia.
Qed.

Lemma readDigits_start (s : jsstring) (c : ascii) :
  readDigits 10 (c :: s) None = readDigits 10 (c :: s) (Some 0%Z)
  \/ digitValue c = None \/ exists k, digitValue c = Some k /\ (10 <= k)%Z.
Proof.
  cbn [readDigits]. destruct (digitValue c) as [k|]; [|right; now left].
  destruct (k <? 10)%Z eqn:K; [now left|].
  right; right. exists k. split; [reflexivity|]. now apply Z.ltb_ge.
Qed.

Lemma parseInt_uint (d : Decimal.uint) :
  d <> Decimal.Nil ->
  parseInt (str (NilEmpty.string_of_uint d)) = Some (Z.of_nat (Nat.of_uint d)).
Proof.
  intros N.
  assert (parseInt (str (NilEmpty.string_of_uint d))
          = match readDigits 10 (str (NilEmpty.string_of_uint d)) (Some (Z.of_nat 0)) with
            | Some n => Some (1 * n)%Z
            | None => None
            end) as ->.
  { unfold str.
    destruct d as [|d|d|d|d|d|d|d|d|d|d]; [contradiction| ..];
      cbn [NilEmpty.string_of_uint list_ascii_of_string];
      try (destruct (list_ascii_of_string (NilEmpty.string_of_uint d)); reflexivity).
    destruct d as [|d|d|d|d|d|d|d|d|d|d]; reflexivity. }
  rewrite readDigits_uint. unfold Nat.of_uint. f_equal. lia.
Qed.

(** [parseInt] reads back the decimal rendering of a natural number. *)
Lemma parseInt_showNat (n : nat) : parseInt (showNat n) = Some (Z.of_nat n).
Proof.
  unfold showNat. rewrite parseInt_uint.
  - now rewrite Unsigned.of_to.
  - intros E. pose proof (Unsigned.of_to n) as H. rewrite E in H. cbn in H. subst.
    discriminate E.
Qed.

Lemma millisecondsOf_factor (interval : Z) (unit : jsstring) :
  millisecondsOf interval unit = (interval * unitFactor unit)%Z.
Proof.
  unfold millisecondsOf, unitFactor.
  destruct (jsEqb unit (str "hours")) eqn:H; [lia|].
  destruct (jsEqb unit (str "minutes")); lia.
Qed.

Lemma unitFactor_floor (unit : jsstring) : (1000 <= unitFactor unit)%Z.
Proof.
  unfold unitFactor. destruct (jsEqb unit (str "hours")); [lia|].
  destruct (jsEqb unit (str "minutes")); lia.
Qed.

(** The floor turns away exactly the negative intervals: the interval
    computed is below 1000 ms if and only if the value typed parses to a
    negative number.  Zero and values that do not parse count as 5 and are
    accepted, like every positive number, whatever the unit. *)
Theorem schedule_floor_rejects_negatives_only (v : viewer) :
  ((requested v < 1000)%Z
   <-> exists k, parseInt (scheduleInterval_value (inp v)) = Some k /\ (k < 0)%Z)
  /\ requested v = (intervalOf v * unitFactor (scheduleUnit_value (inp v)))%Z
  /\ (parseInt (scheduleInterval_value (inp v)) = None
      \/ parseInt (scheduleInterval_value (inp v)) = Some 0%Z ->
      requested v = (5 * unitFactor (scheduleUnit_value (inp v)))%Z).
Proof.
  unfold requested. rewrite millisecondsOf_factor.
  pose proof (unitFactor_floor (scheduleUnit_value (inp v))) as F.
  split; [|split; [reflexivity|]].
  - unfold intervalOf, orElse.
    destruct (parseInt (scheduleInterval_value (inp v))) as [k|].
    + destruct (Z.eqb_spec k 0) as [Ek|Nk].
      * split; [lia|]. intros [k' [E L]]. injection E as <-. lia.
      * split.
        -- intros L. exists k. split; [reflexivity|]. nia.
        -- intros [k' [E L]]. injection E as <-. nia.
    + split; [lia|]. intros [k [E _]]. discriminate.
  - intros [E|E]; unfold intervalOf; rewrite E; reflexivity.
Qed.

(** A positive whole number typed in decimal, with a period of at most 2^53
    ms (the range in which the numbers of the code are exact integers), is
    the interval, it is accepted, and the period is that number of seconds,
    minutes or hours exactly. *)
Theorem schedule_period_of_positive (v : viewer) (n : nat) :
  1 <= n ->
  (Z.of_nat n * unitFactor (scheduleUnit_value (inp v)) <= 2 ^ 53)%Z ->
  scheduleInterval_value (inp v) = showNat n ->
  intervalOf v = Z.of_nat n
  /\ requested v = (Z.of_nat n * unitFactor (scheduleUnit_value (inp v)))%Z
  /\ (1000 <= requested v)%Z.
Proof.
  intros N _ E. pose proof (unitFactor_floor (scheduleUnit_value (inp v))) as F.
  assert (intervalOf v = Z.of_nat n) as I.
  { unfold intervalOf. rewrite E, parseInt_showNat. unfold orElse.
    destruct (Z.eqb_spec (Z.of_nat n) 0); [lia | reflexivity]. }
  unfold requested. rewrite millisecondsOf_factor, I. repeat split. nia.
Qed.

Lemma schedule_period_of_positive_witness :
  requested (construct idleControls (Inputs true (str "90") (str "minutes") false)
               (Display [] 0 ([], []) [] false [] []))
  = 5400000%Z.
Proof.
  exact (proj1 (proj2 (schedule_period_of_positive
                         (construct idleControls
                            (Inputs true (str "90") (str "minutes") false)
                            (Display [] 0 ([], []) [] false [] []))
                         90 ltac:(repeat constructor)
                         ltac:(apply Z.leb_le; reflexivity) eq_refl))).
Defined.

(** ** A refresh and its settlement *)

Lemma loadLogsSettled_failure (w : variant) (o : logsOutcome) (e : error) (v : viewer) :
  logsFailure o = Some e ->
  loadLogsSettled w o v = Done (set_isLoading false (stateOf (loadLogsCatch w e v))).
Proof.
  intros F. unfold loadLogsSettled, tryCatchFinally, loadLogsBody.
  destruct o as [e'|status statusText body]; cbn in F.
  - injection F as ->. destruct w; reflexivity.
  - destruct (responseOk status); cbn [negb].
    + destruct body as [e'|logText]; [|discriminate].
      injection F as ->. destruct w; reflexivity.
    + injection F as <-. destruct w; reflexivity.
Qed.

Lemma loadLogsSettled_success (w : variant) (o : logsOutcome) (logText : jsstring)
      (v : viewer) :
  logsText o = Some logText ->
  exists v',
    loadLogsSettled w o v = Done v'
    /\ logContent (out v') = logContent (out (stateOf (displayLogs logText v)))
    /\ errorMessage_shown (out v') = errorMessage_shown (out v)
    /\ errorMessage_text (out v') = errorMessage_text (out v).
Proof.
  intros T. unfold loadLogsSettled, tryCatchFinally, loadLogsBody.
  destruct o as [e'|status statusText [e'|text]]; cbn in T; try discriminate.
  destruct (responseOk status); [|discriminate]. injection T as ->. cbn [negb].
  destruct v as [[] [] [] [] ? ? running task ?].
  unfold displayLogs, updateStats, andThen, ifElse, act. cbn.
  destruct (negb (truthy (trim logText))); cbn;
    destruct running; cbn; destruct w; cbn;
    try (eexists; repeat split; fail);
    destruct (handleTruthy task); eexists; repeat split.
Qed.

(** A refresh pressed on an idle page, then the settlement of its fetch.
    The error banner is shown afterwards exactly when the load failed,
    whatever it showed before.  On a failure the banner carries the error's
    message, and the entries, the counter and (in the dashboard) the status
    stay as they were; on a success the entries are those of the text
    received and the banner text is not touched. *)
Theorem refresh_shows_banner_iff_failed (w : variant) (o : logsOutcome) (v : viewer) :
  isLoading v = false ->
  (errorMessage_shown (out (run w [ClickRefresh; LogsSettle o] v)) = true
   <-> logsFailure o <> None)
  /\ (forall e, logsFailure o = Some e ->
        errorMessage_text (out (run w [ClickRefresh; LogsSettle o] v))
        = str "Error loading logs: " ++ messageOf e
        /\ logContent (out (run w [ClickRefresh; LogsSettle o] v)) = logContent (out v)
        /\ totalLines (out (run w [ClickRefresh; LogsSettle o] v)) = totalLines (out v)
        /\ status (out (run w [ClickRefresh; LogsSettle o] v))
           = match w with
             | Dashboard => status (out v)
             | Script => (str "Error", str "error")
             end)
  /\ (forall logText, logsText o = Some logText ->
        logsFailure o = None
        /\ logContent (out (run w [ClickRefresh; LogsSettle o] v))
           = logContent (out (stateOf (displayLogs logText v)))
        /\ errorMessage_text (out (run w [ClickRefresh; LogsSettle o] v))
           = errorMessage_text (out v)).
Proof.
  intros L.
  assert (exists v1, run w [ClickRefresh; LogsSettle o] v = stateOf (loadLogsSettled w o v1)
                     /\ out v1 = (let 'Display lc tl st et _ ts cs := out v in
                                  Display lc tl
                                    match w with
                                    | Dashboard => st
                                    | Script => (str "Loading...", str "loading")
                                    end et false ts cs)) as [v1 [R O1]].
  { cbn [run dispatch]. unfold loadLogs. rewrite L. open_viewer v.
    destruct w; cbn; eexists; split; reflexivity. }
  rewrite R. clear R.
  assert (logsFailure o = None <-> exists t, logsText o = Some t) as NT.
  { destruct o as [e'|status statusText [e'|text]]; cbn;
      try destruct (responseOk status);
      split; try discriminate; try (intros [t T]; discriminate); eauto. }
  split; [|split].
  - destruct (logsFailure o) as [e|] eqn:F.
    + rewrite (loadLogsSettled_failure w o e v1 F).
      split; [discriminate|]. intros _.
      destruct v1 as [? ? [] ? ? ? ? ? ?]. destruct w; reflexivity.
    + destruct (proj1 NT eq_refl) as [t T].
      destruct (loadLogsSettled_success w o t v1 T) as [v' [E [_ [S _]]]].
      rewrite E. cbn [stateOf]. rewrite S, O1.
      destruct (out v). split; [discriminate | congruence].
  - intros e F. rewrite (loadLogsSettled_failure w o e v1 F).
    destruct v1 as [? ? o1 ? ? ? ? ? ?]. cbn in O1. subst o1.
    destruct (out v). destruct w; repeat split.
  - intros t T. split; [apply NT; eauto|].
    destruct (loadLogsSettled_success w o t v1 T) as [v' [E [C [_ X]]]].
    rewrite E. cbn [stateOf]. rewrite C, X, O1.
    split.
    + destruct v1 as [? ? o1 ? ? ? ? ? ?]. cbn in O1. subst o1.
      destruct v as [? ? [] ? ? ? ? ? ?]. unfold displayLogs.
      destruct (negb (truthy (trim t))); reflexivity.
    + now destruct (out v).
Qed.

Lemma refresh_shows_banner_iff_failed_witness :
  errorMessage_text
    (out (run Dashboard
            [ClickRefresh; LogsSettle (LogsResponse 404 (str "Not Found") (Text []))]
            (construct idleControls (Inputs false (str "5") (str "minutes") false)
               (Display [] 0 ([], []) [] false [] []))))
  = str "Error loading logs: Failed to load logs: 404 Not Found".
Proof.
  destruct (refresh_shows_banner_iff_failed Dashboard
              (LogsResponse 404 (str "Not Found") (Text []))
              (construct idleControls (Inputs false (str "5") (str "minutes") false)
                 (Display [] 0 ([], []) [] false [] []))
              eq_refl) as [_ [F _]].
  destruct (F _ eq_refl) as [T _]. vm_compute in T. exact T.
Defined.

(** ** The schedule's tick *)

Lemma find_timer (ts : list timer) (t : timer) :
  NoDup (map timerId ts) -> In t ts ->
  find (fun t' => timerId t' =? timerId t) ts = Some t.
Proof.
  induction ts as [|a ts IH]; intros N I; [destruct I|].
  cbn in N. inversion N as [|? ? A N']; subst. cbn [find].
  destruct I as [->|I]; [now rewrite Nat.eqb_refl|].
  destruct (Nat.eqb_spec (timerId a) (timerId t)) as [E|_]; [|now apply IH].
  exfalso. apply A. rewrite E. now apply in_map.
Qed.

(** On the dashboard, on any page however it was reached, the tick of a
    schedule timer that is alive returns, leaves the bot running, and has
    issued one trigger request if and only if no run was under way.  The
    entry [Scheduled bot task executed] goes on top of the log in both
    cases, and the timers stay as they are. *)
Theorem schedule_tick_logs_either_way (es : list event) (c : controls) (i : inputs)
        (o : display) (t : timer) :
  In t (scheduleTimers (run Dashboard es (construct c i o))) ->
  exists v',
    dispatch Dashboard (Tick (timerId t)) (run Dashboard es (construct c i o)) = Done v'
    /\ logContent (out v')
       = Added (str "info") (str "Scheduled bot task executed")
           :: logContent (out (run Dashboard es (construct c i o)))
    /\ isBotRunning v' = true
    /\ fetched processUrl v'
       = (if isBotRunning (run Dashboard es (construct c i o))
          then fetched processUrl (run Dashboard es (construct c i o))
          else S (fetched processUrl (run Dashboard es (construct c i o))))
    /\ timers (env v') = timers (env (run Dashboard es (construct c i o)))
    /\ scheduledTask v' = scheduledTask (run Dashboard es (construct c i o)).
Proof.
  intros I. pose proof (timerInv_run Dashboard es c i o) as [_ [_ [N _]]].
  set (v := run Dashboard es (construct c i o)) in *.
  apply filter_In in I as [I S].
  cbn [dispatch]. rewrite (find_timer _ _ N I).
  unfold isSchedule in S. destruct (timerCallback t); [discriminate|].
  cbn [runCallback]. clearbody v. clear.
  destruct v as [[] [] [] [] ? ? r ? ?]. destruct r.
  - eexists. repeat split.
  - eexists. split; [reflexivity|]. repeat split.
Qed.

Lemma schedule_tick_logs_either_way_witness :
  exists v',
    dispatch Dashboard (Tick 1)
      (run Dashboard [ChangeScheduleEnabled true; BotSettle (BotFetchFailed (Error []))]
         (construct idleControls (Inputs false (str "5") (str "minutes") false)
            (Display [] 0 ([], []) [] false [] [])))
    = Done v'
    /\ isBotRunning v' = true
    /\ fetched processUrl v' = 2.
Proof.
  destruct (schedule_tick_logs_either_way
              [ChangeScheduleEnabled true; BotSettle (BotFetchFailed (Error []))]
              idleControls (Inputs false (str "5") (str "minutes") false)
              (Display [] 0 ([], []) [] false [] [])
              (Timer 1 ScheduleTick 300000))
    as [v' [E [_ [R [F _]]]]].
  - vm_compute. left. reflexivity.
  - exists v'. split; [exact E|]. split; [exact R|].
    vm_compute in F. exact F.
Defined.

(** ** Stopping does not cancel the trigger *)

Lemma round_once (v : viewer) :
  isBotRunning v = false ->
  isBotRunning (run Dashboard [ClickStart; ClickStop] v) = false
  /\ pendingBot (env (run Dashboard [ClickStart; ClickStop] v)) = S (pendingBot (env v))
  /\ fetched processUrl (run Dashboard [ClickStart; ClickStop] v)
     = S (fetched processUrl v).
Proof.
  intros R. destruct v as [[] [] [] [] ? ? r task btn]. cbn in R. subst r.
  destruct btn as [b|]; [|unfold fetched; cbn; repeat split].
  destruct task as [[|h]|]; unfold fetched; cbn; repeat split.
Qed.

Lemma run_app (w : variant) (es es' : list event) (v : viewer) :
  run w (es ++ es') v = run w es' (run w es v).
Proof.
  revert v. induction es as [|e es IH]; intros v; [reflexivity|]. cbn. apply IH.
Qed.

(** On the dashboard, [stopBot] gives the start button back while the
    trigger request is still in flight, and cancels nothing: after [n]
    rounds of start and stop from an idle page, [n] more trigger requests
    have been issued and [n] more are pending, and the page is idle again. *)
Theorem stop_leaves_trigger_in_flight (n : nat) (v : viewer) :
  isBotRunning v = false ->
  isBotRunning (run Dashboard (rounds n) v) = false
  /\ pendingBot (env (run Dashboard (rounds n) v)) = pendingBot (env v) + n
  /\ fetched processUrl (run Dashboard (rounds n) v) = fetched processUrl v + n.
Proof.
  revert v. induction n as [|n IH]; intros v R.
  - unfold rounds. cbn [repeat concat run]. rewrite !Nat.add_0_r. auto.
  - unfold rounds. cbn [repeat concat]. rewrite run_app.
    destruct (round_once v R) as [R1 [P1 F1]].
    fold (rounds n).
    destruct (IH _ R1) as [R2 [P2 F2]].
    rewrite R2, P2, F2, P1, F1. repeat split; lia.
Qed.

Lemma stop_leaves_trigger_in_flight_witness :
  pendingBot (env (run Dashboard [ClickStart; ClickStop; ClickStart; ClickStop]
                     (construct idleControls (Inputs false (str "5") (str "minutes") false)
                        (Display [] 0 ([], []) [] false [] []))))
  = 2.
Proof.
  exact (proj1 (proj2 (stop_leaves_trigger_in_flight 2
                         (construct idleControls
                            (Inputs false (str "5") (str "minutes") false)
                            (Display [] 0 ([], []) [] false [] []))
                         eq_refl))).
Defined.
